(** * dynamodb-toolbox: schema builders, sentinel wrappers and the update-mode
      Set extension

    A shallow embedding of
    - [src/schema/list/schema_.ts]: the builder chain of [ListSchema_], and
    - the update-mode Set extension [parseSetExtension],
    both translated from the sources.  What they import and the sources do
    not contain (the sentinel predicates, [overwrite], [ifThenElse], the
    parser engine) is modelled from the specification, and says so.

    JavaScript values are an inductive type; objects and property records are
    finite maps; a generator object is the finite sequence of what it still
    has to produce. *)

From Stdlib Require Import ZArith.
From stdpp Require Import base option list strings gmap.

Set Warnings "-register-all".

(* ===================================================================== *)
(** ** JavaScript values *)
(* ===================================================================== *)

(** Modelled from the spec: the operation tags of the sentinel registry
    (section 2), the unique symbols [$ADD], [$DELETE], ... that
    [symbols/index.js] exports. *)
Inductive Symbol := ADD | DELETE | REMOVE | SET | GET.

(** A property key of an object: a string or a symbol. *)
Inductive Key :=
  | KStr (name : string)
  | KSym (sym : Symbol).

#[global] Instance Symbol_eq_dec : EqDecision Symbol.
Proof. solve_decision. Defined.

#[global] Instance Key_eq_dec : EqDecision Key.
Proof. solve_decision. Defined.

Definition Symbol_to_nat (s : Symbol) : nat :=
  match s with ADD => 0 | DELETE => 1 | REMOVE => 2 | SET => 3 | GET => 4 end.

Definition Symbol_of_nat (n : nat) : option Symbol :=
  match n with
  | 0 => Some ADD | 1 => Some DELETE | 2 => Some REMOVE
  | 3 => Some SET | 4 => Some GET | _ => None
  end.

#[global] Instance Symbol_countable : Countable Symbol.
Proof. apply (inj_countable Symbol_to_nat Symbol_of_nat). by intros []. Defined.

Definition Key_to_sum (k : Key) : string + Symbol :=
  match k with KStr s => inl s | KSym s => inr s end.

Definition Key_of_sum (x : string + Symbol) : Key :=
  match x with inl s => KStr s | inr s => KSym s end.

#[global] Instance Key_countable : Countable Key.
Proof. apply (inj_countable' Key_to_sum Key_of_sum). by intros []. Defined.

(** Values.  Numbers are integers (no claim depends on arithmetic), a [Set]
    is the list of its elements in iteration order, an array is a list, an
    object is a finite map from keys to values. *)
Inductive Value :=
  | VUndefined
  | VNull
  | VBool (b : bool)
  | VNum (n : Z)
  | VStr (s : string)
  | VSet (members : list Value)
  | VList (items : list Value)
  | VObj (fields : gmap Key Value).

(** [x !== undefined] *)
Definition isDefined (v : Value) : bool :=
  match v with VUndefined => false | _ => true end.

(** Truthiness of a value, as [cond ? a : b] sees it. *)
Definition truthy (v : Value) : bool :=
  match v with
  | VUndefined | VNull => false
  | VBool b => b
  | VNum n => negb (n =? 0)%Z
  | VStr s => negb (String.eqb s "")
  | VSet _ | VList _ | VObj _ => true
  end.

(** Property read [x[k]] on a value that is known to be an object; a missing
    property reads as [undefined]. *)
Definition getProp (v : Value) (k : Key) : Value :=
  match v with
  | VObj fields => default VUndefined (fields !! k)
  | _ => VUndefined
  end.

(** The object literal [{ [k]: v }]. *)
Definition singletonObj (k : Key) (v : Value) : Value := VObj {[ k := v ]}.

(* ===================================================================== *)
(** ** Sentinel registry *)
(* ===================================================================== *)

(** Modelled from the spec: the sentinel predicates of [symbols/index.js]
    ([isAddition], [isDeletion], [isRemoval], ...), which are imported by the
    extension but whose file is not part of the sources.  Section 4.2: each
    is true iff its argument is an object carrying the matching tag with a
    defined payload. *)
Definition carriesTag (tag : Symbol) (x : Value) : bool :=
  match x with
  | VObj fields =>
      match fields !! KSym tag with
      | Some payload => isDefined payload
      | None => false
      end
  | _ => false
  end.

(** Modelled from the spec: [isAddition], the predicate of the tag [$ADD]. *)
Definition isAddition (x : Value) : bool := carriesTag ADD x.

(** Modelled from the spec: [isDeletion], the predicate of the tag [$DELETE]. *)
Definition isDeletion (x : Value) : bool := carriesTag DELETE x.

(** Modelled from the spec: [isRemoval], the predicate of the tag [$REMOVE]. *)
Definition isRemoval (x : Value) : bool := carriesTag REMOVE x.

(** Modelled from the spec: [isSetting], the predicate of the tag [$SET]. *)
Definition isSetting (x : Value) : bool := carriesTag SET x.

(** Modelled from the spec: [isGetting], the predicate of the tag [$GET]. *)
Definition isGetting (x : Value) : bool := carriesTag GET x.

(* ===================================================================== *)
(** ** Paths, errors and producers *)
(* ===================================================================== *)

(** A path segment is an attribute name (a string, also used for the
    operation tags) or a list index. *)
Inductive Segment :=
  | SegName (name : string)
  | SegIndex (i : nat).

Abbreviation ValuePath := (list Segment).

Inductive Reason :=
  | RequiredAttributeMissing
  | TypeMismatch
  | ValidationFailed (message : string)
  | RenameConflict.

Record SchemaError := mkError { path : ValuePath; reason : Reason }.

(** A generator object, seen as the finite sequence of what it still has to
    produce: a value it yields before going on, the value it returns, or the
    error it throws. *)
Inductive Gen :=
  | GYield (v : Value) (rest : Gen)
  | GReturn (v : Value)
  | GThrow (e : SchemaError).

(** The result object of [next()]: [{ value, done }]. *)
Record IteratorResult := mkResult { value : Value; done : bool }.

(** A generator that has finished answers [{ value: undefined, done: true }]
    to every further [next()]. *)
Definition exhausted : Gen := GReturn VUndefined.

(** [g.next()]: either throws, or gives a result and the generator in its
    next state. *)
Definition next (g : Gen) : SchemaError + (IteratorResult * Gen) :=
  match g with
  | GYield v rest => inr (mkResult v false, rest)
  | GReturn v => inr (mkResult v true, exhausted)
  | GThrow e => inl e
  end.

(* ===================================================================== *)
(** ** Schema model *)
(* ===================================================================== *)

(** What a schema property can hold: a plain value, a function (getter, link
    or validator), or an encode/decode pair. *)
Inductive PropVal :=
  | PV (v : Value)
  | PFun (f : Value -> Value)
  | PCodec (encode decode : Value -> Value).

(** The [props] object of a schema: property name to property value. *)
Abbreviation SchemaProps := (gmap string PropVal).

Inductive ScalarType := TNull | TBoolean | TNumber | TString.

Inductive Schema :=
  | SScalar (type : ScalarType) (props : SchemaProps)
  | SSet (elements : Schema) (props : SchemaProps)
  | SList (elements : Schema) (props : SchemaProps)
  | SMap (attributes : list (string * Schema)) (props : SchemaProps).

Definition schemaProps (schema : Schema) : SchemaProps :=
  match schema with
  | SScalar _ p | SSet _ p | SList _ p | SMap _ p => p
  end.

(** [SchemaRequiredProp = 'atLeastOnce' | 'always' | 'never'] *)
Inductive SchemaRequiredProp := atLeastOnce | always | never.

Definition requiredString (r : SchemaRequiredProp) : string :=
  match r with
  | atLeastOnce => "atLeastOnce"
  | always => "always"
  | never => "never"
  end.

Definition requiredProp (r : SchemaRequiredProp) : PropVal :=
  PV (VStr (requiredString r)).

(** Modelled from the spec: [overwrite] of [utils/overwrite.js], not part of
    the sources.  Section 4.1 and the design notes: copy-on-write, the result
    is a new property record in which the given properties replace those of
    the receiver and every other property is kept. *)
Definition overwrite (obj overwrites : SchemaProps) : SchemaProps :=
  overwrites ∪ obj.

(** Truthiness of a property read such as [this.props.key]: a property that
    is absent reads as [undefined]; a function is truthy. *)
Definition propTruthy (p : option PropVal) : bool :=
  match p with
  | Some (PV v) => truthy v
  | Some (PFun _) | Some (PCodec _ _) => true
  | None => false
  end.

(** Modelled from the spec: [ifThenElse] of [utils/ifThenElse.js], not part
    of the sources; a conditional on the truthiness of its first argument
    (the mutators [default], [link] and [validate] pick the key or the put
    property with it). *)
Definition ifThenElse {A : Type} (condition : option PropVal) (thenValue elseValue : A) : A :=
  if propTruthy condition then thenValue else elseValue.

(** *** [ListSchema_] : the list attribute interface of [schema/list/schema_.ts] *)

(** Modelled from the spec: the constructor inherited from the base class
    [ListSchema] of [schema/list/schema.js], not part of the sources.
    Section 4.1: a list node exposes its one element schema and its property
    record; [new ListSchema_(elements, props)] stores both. *)
Record ListSchema_ := new_ListSchema_ {
  ls_elements : Schema;
  ls_props : SchemaProps
}.

Definition ListSchema_to_Schema (s : ListSchema_) : Schema :=
  SList (ls_elements s) (ls_props s).

Module ListSchema_.

(** A parameter with a default value takes the default when the argument
    is omitted, hence the [option] arguments. *)

Definition required (this : ListSchema_) (nextRequired : option SchemaRequiredProp) : ListSchema_ :=
  let nextRequired := default atLeastOnce nextRequired in
  new_ListSchema_ (ls_elements this)
    (overwrite (ls_props this) {[ "required" := requiredProp nextRequired ]}).

Definition optional (this : ListSchema_) : ListSchema_ :=
  required this (Some never).

Definition hidden (this : ListSchema_) (nextHidden : option bool) : ListSchema_ :=
  let nextHidden := default true nextHidden in
  new_ListSchema_ (ls_elements this)
    (overwrite (ls_props this) {[ "hidden" := PV (VBool nextHidden) ]}).

Definition key (this : ListSchema_) (nextKey : option bool) : ListSchema_ :=
  let nextKey := default true nextKey in
  new_ListSchema_ (ls_elements this)
    (overwrite (ls_props this)
       {[ "key" := PV (VBool nextKey); "required" := requiredProp always ]}).

(** [nextSavedAs : string | undefined] *)
Definition savedAs (this : ListSchema_) (nextSavedAs : option string) : ListSchema_ :=
  let stored := match nextSavedAs with Some s => VStr s | None => VUndefined end in
  new_ListSchema_ (ls_elements this)
    (overwrite (ls_props this) {[ "savedAs" := PV stored ]}).

Definition keyDefault (this : ListSchema_) (nextKeyDefault : PropVal) : ListSchema_ :=
  new_ListSchema_ (ls_elements this)
    (overwrite (ls_props this) {[ "keyDefault" := nextKeyDefault ]}).

Definition putDefault (this : ListSchema_) (nextPutDefault : PropVal) : ListSchema_ :=
  new_ListSchema_ (ls_elements this)
    (overwrite (ls_props this) {[ "putDefault" := nextPutDefault ]}).

Definition updateDefault (this : ListSchema_) (nextUpdateDefault : PropVal) : ListSchema_ :=
  new_ListSchema_ (ls_elements this)
    (overwrite (ls_props this) {[ "updateDefault" := nextUpdateDefault ]}).

Definition keyLink (this : ListSchema_) (nextKeyLink : Value -> Value) : ListSchema_ :=
  new_ListSchema_ (ls_elements this)
    (overwrite (ls_props this) {[ "keyLink" := PFun nextKeyLink ]}).

Definition putLink (this : ListSchema_) (nextPutLink : Value -> Value) : ListSchema_ :=
  new_ListSchema_ (ls_elements this)
    (overwrite (ls_props this) {[ "putLink" := PFun nextPutLink ]}).

Definition updateLink (this : ListSchema_) (nextUpdateLink : Value -> Value) : ListSchema_ :=
  new_ListSchema_ (ls_elements this)
    (overwrite (ls_props this) {[ "updateLink" := PFun nextUpdateLink ]}).

Definition link (this : ListSchema_) (nextLink : Value -> Value) : ListSchema_ :=
  ifThenElse (ls_props this !! "key")
    (new_ListSchema_ (ls_elements this)
       (overwrite (ls_props this) {[ "keyLink" := PFun nextLink ]}))
    (new_ListSchema_ (ls_elements this)
       (overwrite (ls_props this) {[ "putLink" := PFun nextLink ]})).

Definition keyValidate (this : ListSchema_) (nextKeyValidator : Value -> Value) : ListSchema_ :=
  new_ListSchema_ (ls_elements this)
    (overwrite (ls_props this) {[ "keyValidator" := PFun nextKeyValidator ]}).

Definition putValidate (this : ListSchema_) (nextPutValidator : Value -> Value) : ListSchema_ :=
  new_ListSchema_ (ls_elements this)
    (overwrite (ls_props this) {[ "putValidator" := PFun nextPutValidator ]}).

Definition updateValidate (this : ListSchema_) (nextUpdateValidator : Value -> Value) : ListSchema_ :=
  new_ListSchema_ (ls_elements this)
    (overwrite (ls_props this) {[ "updateValidator" := PFun nextUpdateValidator ]}).

Definition validate (this : ListSchema_) (nextValidator : Value -> Value) : ListSchema_ :=
  ifThenElse (ls_props this !! "key")
    (new_ListSchema_ (ls_elements this)
       (overwrite (ls_props this) {[ "keyValidator" := PFun nextValidator ]}))
    (new_ListSchema_ (ls_elements this)
       (overwrite (ls_props this) {[ "putValidator" := PFun nextValidator ]})).

Definition clone (this : ListSchema_) (nextProps : SchemaProps) : ListSchema_ :=
  new_ListSchema_ (ls_elements this) (overwrite (ls_props this) nextProps).

(** Declared last: the name hides stdpp's [default] from here on. *)
Definition default (this : ListSchema_) (nextDefault : PropVal) : ListSchema_ :=
  ifThenElse (ls_props this !! "key")
    (new_ListSchema_ (ls_elements this)
       (overwrite (ls_props this) {[ "keyDefault" := nextDefault ]}))
    (new_ListSchema_ (ls_elements this)
       (overwrite (ls_props this) {[ "putDefault" := nextDefault ]})).

End ListSchema_.

(** *** [SetSchema] : a set attribute *)

(** Modelled from the spec: the type [SetSchema] of [schema/set], which the
    extension imports as a type only.  Section 4.1: a set node exposes its one
    element schema and its property record. *)

Record SetSchema := new_SetSchema {
  set_elements : Schema;
  set_props : SchemaProps
}.

Definition SetSchema_to_Schema (s : SetSchema) : Schema :=
  SSet (set_elements s) (set_props s).

(* ===================================================================== *)
(** ** Parse options and the extension protocol *)
(* ===================================================================== *)

(** The options object handed to [Parser.start]:
    [{ fill, transform, valuePath }]. *)
Record ParseOptions := mkOptions {
  fill : bool;
  transform : bool;
  valuePath : ValuePath
}.

(** [ExtensionParserOptions]: both fields may be left out. *)
Record ExtensionParserOptions := mkExtOptions {
  ext_transform : option bool;
  ext_valuePath : option ValuePath
}.

(** What an extension answers: [{ isExtension: true, extensionParser }] or
    [{ isExtension: false, unextendedInput }].  The generator function
    [extensionParser] is given by the generator object it creates. *)
Inductive ParseResult :=
  | IsExtension (extensionParser : Gen)
  | NotExtension (unextendedInput : Value).

Definition isExtension (r : ParseResult) : bool :=
  match r with IsExtension _ => true | NotExtension _ => false end.

Abbreviation Extension := (Schema -> Value -> ExtensionParserOptions -> ParseResult).

(* ===================================================================== *)
(** ** The update-mode Set extension, [parseSetExtension] *)
(* ===================================================================== *)

Section SetExtension.

(** [new Parser(schema).start(input, options)]: the parser is imported
    from [schema/actions/parse]; the extension only starts it and resumes
    the handle it gets back. *)
Variable Parser_start : Schema -> Value -> ParseOptions -> Gen.

Definition parseSetExtension
    (schema : SetSchema) (input : Value) (options : ExtensionParserOptions)
    : ParseResult :=
  let transform := default true (ext_transform options) in
  let valuePath := ext_valuePath options in
  if isAddition input && isDefined (getProp input (KSym ADD)) then
    IsExtension
      (let parser :=
         Parser_start (SetSchema_to_Schema schema) (getProp input (KSym ADD))
           {| fill := false;
              transform := transform;
              valuePath := default [] valuePath ++ [SegName "$ADD"] |} in
       match next parser with
       | inl e => GThrow e
       | inr (first, parser) =>
           let parsedValue := singletonObj (KSym ADD) (value first) in
           if transform then
             GYield parsedValue
               match next parser with
               | inl e => GThrow e
               | inr (second, _) =>
                   let transformedValue := singletonObj (KSym ADD) (value second) in
                   GReturn transformedValue
               end
           else GReturn parsedValue
       end)
  else if isDeletion input && isDefined (getProp input (KSym DELETE)) then
    IsExtension
      (let parser :=
         Parser_start (SetSchema_to_Schema schema) (getProp input (KSym DELETE))
           {| fill := false;
              transform := transform;
              valuePath := default [] valuePath ++ [SegName "$DELETE"] |} in
       match next parser with
       | inl e => GThrow e
       | inr (first, parser) =>
           let parsedValue := singletonObj (KSym DELETE) (value first) in
           if transform then
             GYield parsedValue
               match next parser with
               | inl e => GThrow e
               | inr (second, _) =>
                   let transformedValue := singletonObj (KSym DELETE) (value second) in
                   GReturn transformedValue
               end
           else GReturn parsedValue
       end)
  else NotExtension input.

End SetExtension.

(* ===================================================================== *)
(** ** Parser engine *)
(* ===================================================================== *)

(** Modelled from the spec: the three write modes of section 1, key
    computation (['key']), create (['put']) and partial update (['update']). *)
Inductive WriteMode := KeyMode | PutMode | UpdateMode.

Module Parser.

(** The parser engine of [schema/actions/parse] is not part of the sources.
    Every definition of this module is modelled from the spec: the per-node
    algorithm of section 4.3 over the property record of section 3. *)

(** Modelled from the spec: the required mode a property record stands for
    (section 3); ['atLeastOnce'] is the default, as the docstring of
    [ListSchema_.required] has it. *)
Definition requiredMode (props : SchemaProps) : SchemaRequiredProp :=
  match props !! "required" with
  | Some (PV (VStr s)) =>
      if String.eqb s "always" then always
      else if String.eqb s "never" then never
      else atLeastOnce
  | _ => atLeastOnce
  end.

(** Modelled from the spec: required-ness for the active mode, step 4:
    AtLeastOnce required only in create mode, Always in every mode, Never
    in none. *)
Definition isRequired (r : SchemaRequiredProp) (mode : WriteMode) : bool :=
  match r with
  | always => true
  | never => false
  | atLeastOnce => match mode with PutMode => true | _ => false end
  end.

(** Modelled from the spec: the per-mode property names of section 3, with
    the names the mutators of [ListSchema_] write. *)
Definition defaultName (mode : WriteMode) : string :=
  match mode with
  | KeyMode => "keyDefault" | PutMode => "putDefault" | UpdateMode => "updateDefault"
  end.

(** Modelled from the spec: the per-mode link property. *)
Definition linkName (mode : WriteMode) : string :=
  match mode with
  | KeyMode => "keyLink" | PutMode => "putLink" | UpdateMode => "updateLink"
  end.

(** Modelled from the spec: the per-mode validator property. *)
Definition validatorName (mode : WriteMode) : string :=
  match mode with
  | KeyMode => "keyValidator" | PutMode => "putValidator" | UpdateMode => "updateValidator"
  end.

(** Modelled from the spec: the mode's default, a literal or a
    zero-argument producer (step 3 b). *)
Definition fromDefault (mode : WriteMode) (props : SchemaProps) : Value :=
  match props !! defaultName mode with
  | Some (PV v) => v
  | Some (PFun producer) => producer VUndefined
  | _ => VUndefined
  end.

(** Modelled from the spec: the mode's link, evaluated against the
    already-filled state (step 3 a). *)
Definition fromLink (mode : WriteMode) (props : SchemaProps) (filledState : Value) : Value :=
  match props !! linkName mode with
  | Some (PFun link) => link filledState
  | _ => VUndefined
  end.

(** Modelled from the spec: step 3 for one node: an undefined input is
    resolved by the mode's link, else by the mode's default, else it stays
    undefined. *)
Definition fillValue (mode : WriteMode) (props : SchemaProps)
    (filledState input : Value) : Value :=
  if isDefined input then input
  else
    let linked := fromLink mode props filledState in
    if isDefined linked then linked else fromDefault mode props.

(** Modelled from the spec: the generic message of a validator that
    answers [false]. *)
Definition genericMessage : string := "Custom validation failed".

(** Modelled from the spec: the mode's validator, step 4: a [false] or
    string result is a failure, with the string as message. *)
Definition validatorFailure (mode : WriteMode) (props : SchemaProps)
    (filled : Value) : option string :=
  match props !! validatorName mode with
  | Some (PFun validator) =>
      match validator filled with
      | VBool false => Some genericMessage
      | VStr message => Some message
      | _ => None
      end
  | _ => None
  end.

(** Modelled from the spec: the type check of a scalar node, step 4. *)
Definition checkScalar (type : ScalarType) (v : Value) : bool :=
  match type, v with
  | TNull, VNull => true
  | TBoolean, VBool _ => true
  | TNumber, VNum _ => true
  | TString, VStr _ => true
  | _, _ => false
  end.

(** Modelled from the spec: the node's encoder, step 5, when a transformer
    is configured. *)
Definition encodeValue (props : SchemaProps) (v : Value) : Value :=
  match props !! "transform" with
  | Some (PCodec encode _) => encode v
  | _ => v
  end.

(** Modelled from the spec: the stored name of a child, step 5: its
    [savedAs] when it has one. *)
Definition storedName (name : string) (props : SchemaProps) : string :=
  match props !! "savedAs" with
  | Some (PV (VStr renamed)) => renamed
  | _ => name
  end.

(** Modelled from the spec: key-set conformance of an object with a map
    schema, step 4: every key is the name of an attribute. *)
Definition keysConform (attributes : list (string * Schema))
    (fields : gmap Key Value) : bool :=
  bool_decide (map_Forall (fun k _ => k ∈ (KStr <$> attributes.*1)) fields).

(** Modelled from the spec: [extend(path, segment)] of the path tracker,
    section 4.4. *)
Definition extend (path : ValuePath) (segment : Segment) : ValuePath :=
  path ++ [segment].

(** Modelled from the spec: the options of the parse of a child, at the path
    extended by the child's segment. *)
Definition childOptions (o : ParseOptions) (segment : Segment) : ParseOptions :=
  {| fill := fill o; transform := transform o;
     valuePath := extend (valuePath o) segment |}.

(** Modelled from the spec: the filled child collection of step 3 keeps the
    absence of a child. *)
Definition insertDefined (k : Key) (v : Value) (m : gmap Key Value) : gmap Key Value :=
  if isDefined v then <[ k := v ]> m else m.

(** Modelled from the spec: one resume of every element, left to right; the
    first error aborts (section 4.3). *)
Fixpoint resumeAll (gens : list Gen) : SchemaError + (list Value * list Gen) :=
  match gens with
  | [] => inr ([], [])
  | g :: rest =>
      match next g with
      | inl e => inl e
      | inr (r, g') =>
          match resumeAll rest with
          | inl e => inl e
          | inr (vs, gs) => inr (value r :: vs, g' :: gs)
          end
      end
  end.

Section Children.

Variable parse : Schema -> Value -> ParseOptions -> Value -> Gen.
Variable o : ParseOptions.
Variable filled : Value.

(** Modelled from the spec: first resume of the children of a map, left to
    right (steps 3 and 4): each child reads its own property of the input and
    sees the siblings filled before it; the first error aborts. *)
Fixpoint fillChildren (attrs : list (string * Schema)) (siblings : gmap Key Value)
    : SchemaError + (gmap Key Value * list (string * ValuePath * Gen)) :=
  match attrs with
  | [] => inr (siblings, [])
  | (name, child) :: rest =>
      let o' := childOptions o (SegName name) in
      match next (parse child (getProp filled (KStr name)) o' (VObj siblings)) with
      | inl e => inl e
      | inr (r, parser) =>
          match fillChildren rest (insertDefined (KStr name) (value r) siblings) with
          | inl e => inl e
          | inr (all, parsers) =>
              inr (all,
                   (storedName name (schemaProps child), valuePath o', parser)
                     :: parsers)
          end
      end
  end.

End Children.

(** Modelled from the spec: second resume of the children of a map, step 5:
    each defined result is stored under the child's stored name; two children
    with the same stored name are a rename conflict. *)
Fixpoint renameAll (gens : list (string * ValuePath * Gen))
    (stored : gmap Key Value) : SchemaError + gmap Key Value :=
  match gens with
  | [] => inr stored
  | (name, childPath, g) :: rest =>
      match next g with
      | inl e => inl e
      | inr (r, _) =>
          if isDefined (value r) then
            if bool_decide (is_Some (stored !! KStr name))
            then inl (mkError childPath RenameConflict)
            else renameAll rest (<[ KStr name := value r ]> stored)
          else renameAll rest stored
      end
  end.

(** Modelled from the spec: the two checkpoints of a node, section 6: the
    filled value, then (only when [transform] is set) what the transform
    phase gives. *)
Definition checkpoints (o : ParseOptions) (filled : Value) (transformed : Gen) : Gen :=
  if transform o then GYield filled transformed else GReturn filled.

(** Modelled from the spec: the node's validator runs once its children
    are valid; then come the checkpoints. *)
Definition validated (mode : WriteMode) (props : SchemaProps) (o : ParseOptions)
    (filled : Value) (transformed : Gen) : Gen :=
  match validatorFailure mode props filled with
  | Some message => GThrow (mkError (valuePath o) (ValidationFailed message))
  | None => checkpoints o filled transformed
  end.

(** Modelled from the spec: the transform phase of a set or a list, step 5:
    the second resume of every element. *)
Definition transformedAll (build : list Value -> Value) (gens : list Gen) : Gen :=
  match resumeAll gens with
  | inl e => GThrow e
  | inr (vs, _) => GReturn (build vs)
  end.

Section Engine.

Variable mode : WriteMode.
Variable extension : option Extension.

(** Modelled from the spec: step 1, the extension configured for the active
    mode is asked first, with [{ transform, valuePath }]. *)
Definition tryExtension (schema : Schema) (rawInput : Value) (o : ParseOptions)
    : ParseResult :=
  match extension with
  | Some ext =>
      ext schema rawInput
        {| ext_transform := Some (transform o); ext_valuePath := Some (valuePath o) |}
  | None => NotExtension rawInput
  end.

(** Modelled from the spec: the per-node algorithm of section 4.3, for
    the parser of [schema/actions/parse], which is not part of the
    sources.  [filledState] is the already-filled sibling state the links
    of this node are evaluated against. *)
Fixpoint startAt (schema : Schema) (rawInput : Value) (o : ParseOptions)
    (filledState : Value) {struct schema} : Gen :=
  match tryExtension schema rawInput o with
  | IsExtension extensionParser => extensionParser
  | NotExtension input =>
      let props := schemaProps schema in
      let filled :=
        if fill o then fillValue mode props filledState input else input in
      if isDefined filled then
        match schema with
        | SScalar type _ =>
            if checkScalar type filled
            then validated mode props o filled (GReturn (encodeValue props filled))
            else GThrow (mkError (valuePath o) TypeMismatch)
        | SSet elements _ =>
            match filled with
            | VSet members =>
                let parsers :=
                  map (fun x => startAt elements x o filledState) members in
                match resumeAll parsers with
                | inl e => GThrow e
                | inr (vs, parsers) =>
                    validated mode props o (VSet vs) (transformedAll VSet parsers)
                end
            | _ => GThrow (mkError (valuePath o) TypeMismatch)
            end
        | SList elements _ =>
            match filled with
            | VList items =>
                let parsers :=
                  imap (fun i x =>
                          startAt elements x (childOptions o (SegIndex i)) filledState)
                       items in
                match resumeAll parsers with
                | inl e => GThrow e
                | inr (vs, parsers) =>
                    validated mode props o (VList vs) (transformedAll VList parsers)
                end
            | _ => GThrow (mkError (valuePath o) TypeMismatch)
            end
        | SMap attributes _ =>
            match filled with
            | VObj fields =>
                if keysConform attributes fields then
                  match
                    fillChildren
                      (fun child x o' siblings => startAt child x o' siblings)
                      o filled attributes ∅
                  with
                  | inl e => GThrow e
                  | inr (all, parsers) =>
                      validated mode props o (VObj all)
                        match renameAll parsers ∅ with
                        | inl e => GThrow e
                        | inr stored => GReturn (VObj stored)
                        end
                  end
                else GThrow (mkError (valuePath o) TypeMismatch)
            | _ => GThrow (mkError (valuePath o) TypeMismatch)
            end
        end
      else if isRequired (requiredMode props) mode
      then GThrow (mkError (valuePath o) RequiredAttributeMissing)
      else checkpoints o VUndefined (GReturn VUndefined)
  end.

(** Modelled from the spec: the entry point [start(schema, rawInput,
    options)] of section 6; at the root there is no filled state yet. *)
Definition start (schema : Schema) (rawInput : Value) (o : ParseOptions) : Gen :=
  startAt schema rawInput o VUndefined.

End Engine.

End Parser.

(** Modelled from the spec: [new Parser(schema).start(...)] as the Set
    extension calls it.  The call hands over neither a mode nor an extension,
    so the operand is parsed by the engine of section 4.3 in the parser's
    default mode, whichever it is, and without extension. *)
Definition operandParser (defaultMode : WriteMode) : Schema -> Value -> ParseOptions -> Gen :=
  Parser.start defaultMode None.

(** Modelled from the spec: the update-mode extension handed to the engine,
    whose dispatch file is not part of the sources.  Section 4.2: on
    Set-typed attributes it is the Set extension; any other node falls
    through to generic parsing. *)
Definition parseUpdateExtension (defaultMode : WriteMode) : Extension :=
  fun schema input options =>
    match schema with
    | SSet elements props =>
        parseSetExtension (operandParser defaultMode)
          (new_SetSchema elements props) input options
    | _ => NotExtension input
    end.

(** An input that is valid for a schema in a mode, that is, what step 4
    accepts and step 3 has nothing to add to: an absent value where the mode
    does not require one, or a value of the node's kind (element-wise for
    sets and lists; for a map, every key names an attribute, no property
    holds [undefined] and every attribute reads a valid value) that the
    mode's validator accepts. *)
Fixpoint matchesShape (mode : WriteMode) (schema : Schema) (input : Value)
    {struct schema} : bool :=
  if isDefined input then
    match schema with
    | SScalar type _ => Parser.checkScalar type input
    | SSet elements _ =>
        match input with
        | VSet members => forallb (matchesShape mode elements) members
        | _ => false
        end
    | SList elements _ =>
        match input with
        | VList items => forallb (matchesShape mode elements) items
        | _ => false
        end
    | SMap attributes _ =>
        match input with
        | VObj fields =>
            Parser.keysConform attributes fields
            && forallb
                 (fun '(name, child) =>
                    match fields !! KStr name with
                    | Some v => isDefined v && matchesShape mode child v
                    | None => matchesShape mode child VUndefined
                    end)
                 attributes
        | _ => false
        end
    end
    && bool_decide (Parser.validatorFailure mode (schemaProps schema) input = None)
  else negb (Parser.isRequired (Parser.requiredMode (schemaProps schema)) mode).

(** Modelled from the spec: an input that "already matches the schema's
    shape" (section 8): an absent value where the mode does not require one,
    or a value of the node's kind, element-wise for sets and lists and
    attribute by attribute for a map whose keys all name attributes. *)
Fixpoint hasShape (mode : WriteMode) (schema : Schema) (input : Value)
    {struct schema} : bool :=
  if isDefined input then
    match schema with
    | SScalar type _ => Parser.checkScalar type input
    | SSet elements _ =>
        match input with
        | VSet members => forallb (hasShape mode elements) members
        | _ => false
        end
    | SList elements _ =>
        match input with
        | VList items => forallb (hasShape mode elements) items
        | _ => false
        end
    | SMap attributes _ =>
        match input with
        | VObj fields =>
            Parser.keysConform attributes fields
            && forallb
                 (fun '(name, child) => hasShape mode child (getProp input (KStr name)))
                 attributes
        | _ => false
        end
    end
  else negb (Parser.isRequired (Parser.requiredMode (schemaProps schema)) mode).

(** Re-wrapping, in the words of section 4.2: the checkpoints of the parse
    of the operand are wrapped again under [tag], the first one always, the
    second one when [transform] is set; an error of the parse is passed on. *)
Definition rewrapped (tag : Symbol) (parser : Gen) (transform : bool) : Gen :=
  match next parser with
  | inl e => GThrow e
  | inr (first, parser) =>
      if transform then
        GYield (singletonObj (KSym tag) (value first))
          match next parser with
          | inl e => GThrow e
          | inr (second, _) => GReturn (singletonObj (KSym tag) (value second))
          end
      else GReturn (singletonObj (KSym tag) (value first))
  end.

(** The options of the parse of an operand: [fill: false], the [transform]
    of the extension (on by default), and the base path (empty by default)
    extended by [segment]. *)
Definition operandOptions (options : ExtensionParserOptions) (segment : string)
    : ParseOptions :=
  {| fill := false;
     transform := default true (ext_transform options);
     valuePath := default [] (ext_valuePath options) ++ [SegName segment] |}.

(** Induction on schemas that reaches the attributes of a map. *)
Fixpoint Schema_nested_ind (P : Schema -> Prop)
    (Hscalar : forall type props, P (SScalar type props))
    (Hset : forall elements props, P elements -> P (SSet elements props))
    (Hlist : forall elements props, P elements -> P (SList elements props))
    (Hmap : forall attributes props,
        Forall (fun a => P a.2) attributes -> P (SMap attributes props))
    (schema : Schema) {struct schema} : P schema :=
  match schema with
  | SScalar type props => Hscalar type props
  | SSet elements props =>
      Hset elements props (Schema_nested_ind P Hscalar Hset Hlist Hmap elements)
  | SList elements props =>
      Hlist elements props (Schema_nested_ind P Hscalar Hset Hlist Hmap elements)
  | SMap attributes props =>
      Hmap attributes props
        ((fix all (l : list (string * Schema)) : Forall (fun a => P a.2) l :=
            match l with
            | [] => List.Forall_nil _
            | a :: l' =>
                @List.Forall_cons _ _ a l'
                  (Schema_nested_ind P Hscalar Hset Hlist Hmap a.2) (all l')
            end) attributes)
  end.

(** An object that carries [tag] with a defined payload. *)
Definition carries (tag : Symbol) (x : Value) : Prop :=
  exists fields payload,
    x = VObj fields /\ fields !! KSym tag = Some payload /\ payload <> VUndefined.

(** The type check of a value against the kind of one node, as step 4 of the
    engine does it before it looks at the elements. *)
Definition checkKind (schema : Schema) (v : Value) : bool :=
  match schema, v with
  | SScalar type _, _ => Parser.checkScalar type v
  | SSet _ _, VSet _ => true
  | SList _ _, VList _ => true
  | SMap attributes _, VObj fields => Parser.keysConform attributes fields
  | _, _ => false
  end.

(** A call of one of the builder-style mutators of [ListSchema_]. *)
Inductive Mutator :=
  | call_required (nextRequired : option SchemaRequiredProp)
  | call_optional
  | call_hidden (nextHidden : option bool)
  | call_key (nextKey : option bool)
  | call_savedAs (nextSavedAs : option string)
  | call_keyDefault (nextKeyDefault : PropVal)
  | call_putDefault (nextPutDefault : PropVal)
  | call_updateDefault (nextUpdateDefault : PropVal)
  | call_default (nextDefault : PropVal)
  | call_keyLink (nextKeyLink : Value -> Value)
  | call_putLink (nextPutLink : Value -> Value)
  | call_updateLink (nextUpdateLink : Value -> Value)
  | call_link (nextLink : Value -> Value)
  | call_keyValidate (nextKeyValidator : Value -> Value)
  | call_putValidate (nextPutValidator : Value -> Value)
  | call_updateValidate (nextUpdateValidator : Value -> Value)
  | call_validate (nextValidator : Value -> Value).

Definition call (m : Mutator) (this : ListSchema_) : ListSchema_ :=
  match m with
  | call_required r => ListSchema_.required this r
  | call_optional => ListSchema_.optional this
  | call_hidden h => ListSchema_.hidden this h
  | call_key k => ListSchema_.key this k
  | call_savedAs n => ListSchema_.savedAs this n
  | call_keyDefault d => ListSchema_.keyDefault this d
  | call_putDefault d => ListSchema_.putDefault this d
  | call_updateDefault d => ListSchema_.updateDefault this d
  | call_default d => ListSchema_.default this d
  | call_keyLink f => ListSchema_.keyLink this f
  | call_putLink f => ListSchema_.putLink this f
  | call_updateLink f => ListSchema_.updateLink this f
  | call_link f => ListSchema_.link this f
  | call_keyValidate f => ListSchema_.keyValidate this f
  | call_putValidate f => ListSchema_.putValidate this f
  | call_updateValidate f => ListSchema_.updateValidate this f
  | call_validate f => ListSchema_.validate this f
  end.

(** The property a mutator call is documented to set. *)
Definition target (m : Mutator) (this : ListSchema_) : string :=
  let keyed := propTruthy (ls_props this !! "key") in
  match m with
  | call_required _ | call_optional => "required"
  | call_hidden _ => "hidden"
  | call_key _ => "key"
  | call_savedAs _ => "savedAs"
  | call_keyDefault _ => "keyDefault"
  | call_putDefault _ => "putDefault"
  | call_updateDefault _ => "updateDefault"
  | call_default _ => if keyed then "keyDefault" else "putDefault"
  | call_keyLink _ => "keyLink"
  | call_putLink _ => "putLink"
  | call_updateLink _ => "updateLink"
  | call_link _ => if keyed then "keyLink" else "putLink"
  | call_keyValidate _ => "keyValidator"
  | call_putValidate _ => "putValidator"
  | call_updateValidate _ => "updateValidator"
  | call_validate _ => if keyed then "keyValidator" else "putValidator"
  end.

(** The two-resume contract of a producer that wraps, under [tag], the
    checkpoints of [parser]: the first resume gives the wrapper around the
    first checkpoint and is final exactly when [transform] is off; with
    [transform], the second resume gives the wrapper around the second
    checkpoint and is final; afterwards the producer is exhausted.  An error
    of the parser is thrown by the resume that meets it. *)
Definition twoResumeContract (tag : Symbol) (parser : Gen) (transform : bool)
    (producer : Gen) : Prop :=
  match next parser with
  | inl e => next producer = inl e
  | inr (first, parser) =>
      exists resumed,
        next producer
        = inr (mkResult (singletonObj (KSym tag) (value first)) (negb transform),
               resumed)
        /\ if transform then
             match next parser with
             | inl e => next resumed = inl e
             | inr (second, _) =>
                 next resumed
                 = inr (mkResult (singletonObj (KSym tag) (value second)) true,
                        exhausted)
             end
           else resumed = exhausted
  end.

(** An extension that leaves alone every input that carries no operation
    tag: it answers with the input itself, for generic handling. *)
Definition declinesUntagged (extension : option Extension) : Prop :=
  forall ext, extension = Some ext ->
  forall schema v options,
    (forall tag, carriesTag tag v = false) -> ext schema v options = NotExtension v.

(** The first resume of [g] gives the value [x]. *)
Definition givesBack (g : Gen) (x : Value) : Prop :=
  exists r g', next g = inr (r, g') /\ value r = x.

(** An operand that fails the type check of a set schema: it is not a Set,
    or it is a Set whose first member that does not match the element schema
    is a defined value of the wrong kind for it. *)
Definition failsSetCheck (mode : WriteMode) (schema : SetSchema) (v : Value) : Prop :=
  checkKind (SetSchema_to_Schema schema) v = false
  \/ exists before bad after,
       v = VSet (before ++ bad :: after)
       /\ forallb (matchesShape mode (set_elements schema)) before = true
       /\ isDefined bad = true
       /\ checkKind (set_elements schema) bad = false.

(** The siblings filled so far, once each child of [attrs] gave back the
    property of [fields] it read. *)
Definition readAll (fields : gmap Key Value) (attrs : list (string * Schema))
    (siblings : gmap Key Value) : gmap Key Value :=
  foldl (fun acc a =>
           Parser.insertDefined (KStr a.1) (getProp (VObj fields) (KStr a.1)) acc)
        siblings attrs.

(* ===================================================================== *)
(** ** More of the sources: the list schemer, mutator chains, the item
       formatter *)
(* ===================================================================== *)

Module ListSchemer.

(** [list(elements, props = {})] of [schema/list/schema_.ts]:
    [new ListSchema_(light(elements), props)].  [light] is imported from
    [schema/utils/light.js], which is not part of the sources, and is taken
    as a parameter. *)
Definition list (light : Schema -> Schema) (elements : Schema)
    (props : option SchemaProps) : ListSchema_ :=
  let props := default ∅ props in
  new_ListSchema_ (light elements) props.

End ListSchemer.

(** The value a mutator call writes into the property it is named after. *)
Definition written (m : Mutator) : PropVal :=
  match m with
  | call_required r => requiredProp (default atLeastOnce r)
  | call_optional => requiredProp never
  | call_hidden h => PV (VBool (default true h))
  | call_key k => PV (VBool (default true k))
  | call_savedAs n => PV (match n with Some s => VStr s | None => VUndefined end)
  | call_keyDefault d | call_putDefault d | call_updateDefault d | call_default d => d
  | call_keyLink f | call_putLink f | call_updateLink f | call_link f => PFun f
  | call_keyValidate f | call_putValidate f | call_updateValidate f
  | call_validate f => PFun f
  end.

Definition isKeyCall (m : Mutator) : bool :=
  match m with call_key _ => true | _ => false end.

(** The mutators whose target neither is nor depends on [key] or
    [required]. *)
Definition keyIndependent (m : Mutator) : bool :=
  match m with
  | call_hidden _ | call_savedAs _
  | call_keyDefault _ | call_putDefault _ | call_updateDefault _
  | call_keyLink _ | call_putLink _ | call_updateLink _
  | call_keyValidate _ | call_putValidate _ | call_updateValidate _ => true
  | _ => false
  end.

(** A chain of mutator calls, [this.m1(...).m2(...)...]. *)
Definition chain (ms : list Mutator) (this : ListSchema_) : ListSchema_ :=
  foldl (fun schema m => call m schema) this ms.

(** The property names the mutators of [ListSchema_] write. *)
Definition writableNames : list string :=
  [ "required"; "hidden"; "key"; "savedAs";
    "keyDefault"; "putDefault"; "updateDefault";
    "keyLink"; "putLink"; "updateLink";
    "keyValidator"; "putValidator"; "updateValidator" ].

(** *** [itemZodFormatter] of [schema/actions/zodSchemer/formatter/item.ts] *)

(** Modelled from the spec: the type [ItemSchema], imported as a type only.
    Section 4.1: an item exposes its children by name; [item_attributes] is
    [Object.entries(schema.attributes)], the children in the order of the
    object. *)
Record ItemSchema := new_ItemSchema {
  item_attributes : list (string * Schema)
}.

(** The options object of the formatter, [{ format, defined, ... }]. *)
Abbreviation ZodFormatterOptions := (gmap string Value).

Section ItemZodFormatter.

(** [z.object] of the zod library, and [schemaZodFormatter] and
    [withAttributeNameDecoding] of the sibling files [./schema.js] and
    [./utils.js], none of them part of the sources, are parameters. *)
Variable ZodType : Type.
Variable z_object : gmap string ZodType -> ZodType.
Variable schemaZodFormatter : Schema -> ZodFormatterOptions -> ZodType.
Variable withAttributeNameDecoding :
  ItemSchema -> ZodFormatterOptions -> ZodType -> ZodType.

(** [Object.fromEntries]: a later entry replaces an earlier one that has the
    same key. *)
Definition fromEntries (entries : list (string * ZodType)) : gmap string ZodType :=
  foldl (fun object entry => <[ entry.1 := entry.2 ]> object) ∅ entries.

(** [const { format = true } = options], then [format ? ... : ...]. *)
Definition formatOn (options : ZodFormatterOptions) : bool :=
  let format :=
    match options !! "format" with
    | Some v => if isDefined v then v else VBool true
    | None => VBool true
    end in
  truthy format.

(** [([, { props }]) => !props.hidden] *)
Definition notHidden (entry : string * Schema) : bool :=
  negb (propTruthy (schemaProps entry.2 !! "hidden")).

Definition itemZodFormatter (schema : ItemSchema) (options : ZodFormatterOptions)
    : ZodType :=
  let displayedAttrEntries :=
    if formatOn options
    then List.filter notHidden (item_attributes schema)
    else item_attributes schema in
  withAttributeNameDecoding schema options
    (z_object
       (fromEntries
          (map (fun entry =>
                  (entry.1,
                   schemaZodFormatter entry.2 (<[ "defined" := VBool false ]> options)))
               displayedAttrEntries))).

End ItemZodFormatter.

(** An attribute is displayed by the formatter unless formatting is on and
    the attribute is hidden. *)
Definition displayed (options : ZodFormatterOptions) (attribute : Schema) : bool :=
  negb (formatOn options) || negb (propTruthy (schemaProps attribute !! "hidden")).

(** Schemas and inputs used as concrete instances below. *)
Definition stringSchema : Schema := SScalar TString ∅.
Definition numberSchema : Schema := SScalar TNumber ∅.

(** [tags]: a set of strings. *)
Definition tagsSchema : SetSchema := new_SetSchema stringSchema ∅.

Definition noOptions : ExtensionParserOptions := mkExtOptions None None.

Definition atTags (transform : bool) : ExtensionParserOptions :=
  mkExtOptions (Some transform) (Some [SegName "tags"]).

(** [{ [$ADD]: new Set(['a']) }] *)
Definition addSetOfA : Value := singletonObj (KSym ADD) (VSet [VStr "a"]).

(** A list of strings that was declared optional. *)
Definition optionalList : ListSchema_ :=
  new_ListSchema_ stringSchema {[ "required" := requiredProp never ]}.

(** The examples of section 8: [qty], a set of numbers with the empty set
    as create-mode default; [tags], a set of strings; [pk], saved as
    [pk_stored] with the create-mode default [5]. *)
Definition qtyItem : Schema :=
  SMap [("qty", SSet numberSchema {[ "putDefault" := PV (VSet []) ]})] ∅.

Definition tagsItem : Schema :=
  SMap [("tags", SetSchema_to_Schema tagsSchema)] ∅.

Definition pkItem : Schema :=
  SMap [("pk", SScalar TNumber
                 {[ "savedAs" := PV (VStr "pk_stored"); "putDefault" := PV (VNum 5) ]})] ∅.

(** An item with a set of numbers [qty] and a string [name]. *)
Definition itemSchema : Schema :=
  SMap [("qty", SSet numberSchema ∅); ("name", stringSchema)] ∅.


(** A wrapper that carries both tags, and an item with a hidden attribute. *)
Definition addAndDelete : Value :=
  VObj {[ KSym ADD := VSet [VStr "a"]; KSym DELETE := VSet [VStr "b"];
          KStr "note" := VStr "x" ]}.

(** A stand-in for the zod types, to run the formatter on: the formatter of
    one attribute, an object of named types, a type wrapped for decoding. *)
Inductive ZodModel :=
  | ZAttribute (attribute : Schema) (options : ZodFormatterOptions)
  | ZObject (shape : gmap string ZodModel)
  | ZDecoding (inner : ZodModel).

Definition secretItem : ItemSchema :=
  new_ItemSchema
    [ ("name", stringSchema);
      ("secret", SScalar TString {[ "hidden" := PV (VBool true) ]}) ].



(** [{ [$DELETE]: new Set(['a']) }] *)
Definition deleteSetOfA : Value := singletonObj (KSym DELETE) (VSet [VStr "a"]).

(* ===================================================================== *)
(** * Properties *)
(* ===================================================================== *)

(** ** Sentinel predicates *)

Lemma carriesTag_carries tag x : carriesTag tag x = true <-> carries tag x.
Proof.
  unfold carriesTag, carries. split.
  - destruct x as [| | | | | | |fields]; try discriminate.
    destruct (fields !! KSym tag) as [payload|] eqn:Hlookup; [|discriminate].
    intros Hdef. exists fields, payload. repeat split; [done|].
    intros ->. discriminate.
  - intros (fields & payload & -> & -> & Hdef).
    by destruct payload.
Qed.

Lemma carriesTag_false tag x : carriesTag tag x = false <-> ~ carries tag x.
Proof.
  rewrite <- carriesTag_carries. by destruct (carriesTag tag x).
Qed.

Lemma carries_getProp tag x :
  carries tag x -> isDefined (getProp x (KSym tag)) = true.
Proof.
  intros (fields & payload & -> & Hlookup & Hdef). simpl. rewrite Hlookup. simpl.
  by destruct payload.
Qed.

(** ** The Set extension *)

Section SetExtensionFacts.

Variable Parser_start : Schema -> Value -> ParseOptions -> Gen.
Variable schema : SetSchema.
Variable input : Value.
Variable options : ExtensionParserOptions.

Lemma parseSetExtension_ADD :
  carries ADD input ->
  parseSetExtension Parser_start schema input options
  = IsExtension
      (rewrapped ADD
         (Parser_start (SetSchema_to_Schema schema) (getProp input (KSym ADD))
            (operandOptions options "$ADD"))
         (default true (ext_transform options))).
Proof.
  intros Hadd. unfold parseSetExtension, isAddition.
  rewrite (proj2 (carriesTag_carries _ _) Hadd), (carries_getProp _ _ Hadd).
  simpl. unfold rewrapped, operandOptions.
  destruct (next _) as [e|[first parser]]; [done|].
  destruct (default true (ext_transform options)); [|done].
  by destruct (next parser) as [e|[second ?]].
Qed.

Lemma parseSetExtension_DELETE :
  ~ carries ADD input -> carries DELETE input ->
  parseSetExtension Parser_start schema input options
  = IsExtension
      (rewrapped DELETE
         (Parser_start (SetSchema_to_Schema schema) (getProp input (KSym DELETE))
            (operandOptions options "$DELETE"))
         (default true (ext_transform options))).
Proof.
  intros Hadd Hdel. unfold parseSetExtension, isAddition, isDeletion.
  rewrite (proj2 (carriesTag_false _ _) Hadd).
  rewrite (proj2 (carriesTag_carries _ _) Hdel), (carries_getProp _ _ Hdel).
  simpl. unfold rewrapped, operandOptions.
  destruct (next _) as [e|[first parser]]; [done|].
  destruct (default true (ext_transform options)); [|done].
  by destruct (next parser) as [e|[second ?]].
Qed.

Lemma parseSetExtension_other :
  ~ carries ADD input -> ~ carries DELETE input ->
  parseSetExtension Parser_start schema input options = NotExtension input.
Proof.
  intros Hadd Hdel. unfold parseSetExtension, isAddition, isDeletion.
  by rewrite (proj2 (carriesTag_false _ _) Hadd), (proj2 (carriesTag_false _ _) Hdel).
Qed.

End SetExtensionFacts.

Lemma carries_singleton tag v : isDefined v = true -> carries tag (singletonObj (KSym tag) v).
Proof.
  intros Hv. exists {[ KSym tag := v ]}, v. repeat split.
  - apply lookup_singleton_eq.
  - intros ->. discriminate.
Qed.

Lemma not_carries_singleton tag tag' v : tag <> tag' -> ~ carries tag (singletonObj (KSym tag') v).
Proof.
  intros Hne (fields & payload & [= <-] & Hlookup & _).
  rewrite lookup_singleton_ne in Hlookup; [done | congruence].
Qed.

Lemma carries_addSetOfA : carries ADD addSetOfA.
Proof.
  exists {[ KSym ADD := VSet [VStr "a"] ]}, (VSet [VStr "a"]).
  split; [reflexivity | split; [reflexivity | discriminate]].
Defined.

(** C1 (as the code has it): on a wrapper [{ADD: v}] or [{DELETE: v}] with a
    defined payload, the Set extension starts the parser on the set schema it
    was given (the very schema, not its element schema) and the operand [v],
    with [fill: false] and the path extended by ['$ADD'] or ['$DELETE'], and
    wraps both checkpoints again under the same tag. *)
Theorem set_extension_parses_operand_against_set_schema
    (Parser_start : Schema -> Value -> ParseOptions -> Gen)
    (schema : SetSchema) (input : Value) (options : ExtensionParserOptions) :
  (carries ADD input ->
   parseSetExtension Parser_start schema input options
   = IsExtension
       (rewrapped ADD
          (Parser_start (SetSchema_to_Schema schema) (getProp input (KSym ADD))
             {| fill := false;
                transform := default true (ext_transform options);
                valuePath := default [] (ext_valuePath options) ++ [SegName "$ADD"] |})
          (default true (ext_transform options))))
  /\ (~ carries ADD input -> carries DELETE input ->
      parseSetExtension Parser_start schema input options
      = IsExtension
          (rewrapped DELETE
             (Parser_start (SetSchema_to_Schema schema) (getProp input (KSym DELETE))
                {| fill := false;
                   transform := default true (ext_transform options);
                   valuePath := default [] (ext_valuePath options) ++ [SegName "$DELETE"] |})
             (default true (ext_transform options)))).
Proof.
  split.
  - apply parseSetExtension_ADD.
  - apply parseSetExtension_DELETE.
Qed.

Lemma set_extension_parses_operand_against_set_schema_witness :
  carries ADD addSetOfA
  /\ parseSetExtension (operandParser PutMode) tagsSchema addSetOfA noOptions
     = IsExtension
         (rewrapped ADD
            (operandParser PutMode (SetSchema_to_Schema tagsSchema)
               (getProp addSetOfA (KSym ADD))
               {| fill := false;
                  transform := default true (ext_transform noOptions);
                  valuePath := default [] (ext_valuePath noOptions) ++ [SegName "$ADD"] |})
            (default true (ext_transform noOptions))).
Proof.
  split.
  - exact carries_addSetOfA.
  - exact (proj1 (set_extension_parses_operand_against_set_schema
                    (operandParser PutMode) tagsSchema addSetOfA noOptions)
             carries_addSetOfA).
Defined.

(** C1 (as stated) fails: for the set of strings [tags] and the input
    [{ADD: Set ['a']}], the extension yields [{ADD: Set ['a']}] at both
    checkpoints, whereas parsing the operand against the element schema (a
    string) is a type mismatch. *)
Lemma set_extension_not_against_element_schema :
  parseSetExtension (operandParser PutMode) tagsSchema addSetOfA noOptions
  = IsExtension (GYield addSetOfA (GReturn addSetOfA))
  /\ rewrapped ADD
       (operandParser PutMode (set_elements tagsSchema) (getProp addSetOfA (KSym ADD))
          (operandOptions noOptions "$ADD"))
       true
     = GThrow (mkError [SegName "$ADD"] TypeMismatch)
  /\ parseSetExtension (operandParser PutMode) tagsSchema addSetOfA noOptions
     <> IsExtension
          (rewrapped ADD
             (operandParser PutMode (set_elements tagsSchema)
                (getProp addSetOfA (KSym ADD)) (operandOptions noOptions "$ADD"))
             true).
Proof.
  split; [vm_compute; reflexivity|].
  split; [vm_compute; reflexivity|].
  intros H. vm_compute in H. discriminate H.
Qed.

(** C4: every recognized wrapper gets a producer, and the producer follows
    the two-resume contract.  An input that carries [$ADD] (or, failing
    that, [$DELETE]) with a defined payload is answered
    [{ isExtension: true, extensionParser }]; the first resume of the
    producer gives the wrapper around the parser's first checkpoint; without
    [transform] that is final ([done] is set and the producer is exhausted);
    with [transform] it is not final, and the second resume gives the
    wrapper, under the same tag, around the parser's second checkpoint and
    exhausts the producer. *)
Theorem extension_two_resume_contract
    (Parser_start : Schema -> Value -> ParseOptions -> Gen)
    (schema : SetSchema) (input : Value) (options : ExtensionParserOptions) :
  (carries ADD input ->
   exists producer,
     parseSetExtension Parser_start schema input options = IsExtension producer
     /\ twoResumeContract ADD
          (Parser_start (SetSchema_to_Schema schema) (getProp input (KSym ADD))
             (operandOptions options "$ADD"))
          (default true (ext_transform options))
          producer)
  /\ (~ carries ADD input -> carries DELETE input ->
      exists producer,
        parseSetExtension Parser_start schema input options = IsExtension producer
        /\ twoResumeContract DELETE
             (Parser_start (SetSchema_to_Schema schema) (getProp input (KSym DELETE))
                (operandOptions options "$DELETE"))
             (default true (ext_transform options))
             producer).
Proof.
  split.
  - intros Hadd. eexists. split; [by apply parseSetExtension_ADD|].
    unfold twoResumeContract, rewrapped.
    destruct (next _) as [e|[first parser]]; [done|].
    destruct (default true (ext_transform options)); simpl.
    + eexists. split; [done|]. by destruct (next parser) as [e|[second ?]].
    + by eexists.
  - intros Hadd Hdel. eexists. split; [by apply parseSetExtension_DELETE|].
    unfold twoResumeContract, rewrapped.
    destruct (next _) as [e|[first parser]]; [done|].
    destruct (default true (ext_transform options)); simpl.
    + eexists. split; [done|]. by destruct (next parser) as [e|[second ?]].
    + by eexists.
Qed.

Lemma carries_deleteSetOfA : ~ carries ADD deleteSetOfA /\ carries DELETE deleteSetOfA.
Proof.
  split.
  - intros (fields & payload & Hobj & Hlookup & _).
    injection Hobj as <-. vm_compute in Hlookup. discriminate Hlookup.
  - exists {[ KSym DELETE := VSet [VStr "a"] ]}, (VSet [VStr "a"]).
    split; [reflexivity | split; [reflexivity | discriminate]].
Defined.

(** The contract at an addition with [transform] on (two resumes) and at a
    deletion with [transform] off (one resume). *)
Lemma extension_two_resume_contract_witness :
  (carries ADD addSetOfA
   /\ exists producer,
        parseSetExtension (operandParser PutMode) tagsSchema addSetOfA noOptions
        = IsExtension producer
        /\ twoResumeContract ADD
             (operandParser PutMode (SetSchema_to_Schema tagsSchema)
                (getProp addSetOfA (KSym ADD)) (operandOptions noOptions "$ADD"))
             (default true (ext_transform noOptions))
             producer)
  /\ (~ carries ADD deleteSetOfA /\ carries DELETE deleteSetOfA
      /\ exists producer,
           parseSetExtension (operandParser PutMode) tagsSchema deleteSetOfA
             (atTags false)
           = IsExtension producer
           /\ twoResumeContract DELETE
                (operandParser PutMode (SetSchema_to_Schema tagsSchema)
                   (getProp deleteSetOfA (KSym DELETE))
                   (operandOptions (atTags false) "$DELETE"))
                (default true (ext_transform (atTags false)))
                producer).
Proof.
  split.
  - split; [exact carries_addSetOfA|].
    exact (proj1 (extension_two_resume_contract
                    (operandParser PutMode) tagsSchema addSetOfA noOptions)
             carries_addSetOfA).
  - split; [exact (proj1 carries_deleteSetOfA)|].
    split; [exact (proj2 carries_deleteSetOfA)|].
    exact (proj2 (extension_two_resume_contract
                    (operandParser PutMode) tagsSchema deleteSetOfA (atTags false))
             (proj1 carries_deleteSetOfA) (proj2 carries_deleteSetOfA)).
Defined.

(** The producers of the two instances, run: an addition with [transform] on
    yields the wrapper and then returns it; a deletion with [transform] off
    returns the wrapper at once. *)
Example extension_producers_run :
  parseSetExtension (operandParser PutMode) tagsSchema addSetOfA noOptions
  = IsExtension (GYield addSetOfA (GReturn addSetOfA))
  /\ parseSetExtension (operandParser PutMode) tagsSchema deleteSetOfA (atTags false)
     = IsExtension (GReturn deleteSetOfA).
Proof. split; vm_compute; reflexivity. Qed.

(** C5: an input that is neither an addition nor a deletion wrapper with a
    defined payload is not taken by the Set extension: the answer is
    [{ isExtension: false, unextendedInput: input }] with the very input. *)
Theorem unrecognized_input_passes_through
    (Parser_start : Schema -> Value -> ParseOptions -> Gen)
    (schema : SetSchema) (input : Value) (options : ExtensionParserOptions) :
  ~ carries ADD input -> ~ carries DELETE input ->
  parseSetExtension Parser_start schema input options = NotExtension input
  /\ isExtension (parseSetExtension Parser_start schema input options) = false.
Proof.
  intros Hadd Hdel. by rewrite parseSetExtension_other.
Qed.

Lemma plain_set_not_carries tag members : ~ carries tag (VSet members).
Proof. intros (fields & payload & Hobj & _). discriminate Hobj. Defined.

Lemma unrecognized_input_passes_through_witness :
  ~ carries ADD (VSet [VStr "a"]) /\ ~ carries DELETE (VSet [VStr "a"])
  /\ parseSetExtension (operandParser PutMode) tagsSchema (VSet [VStr "a"]) noOptions
     = NotExtension (VSet [VStr "a"])
  /\ isExtension
       (parseSetExtension (operandParser PutMode) tagsSchema (VSet [VStr "a"]) noOptions)
     = false.
Proof.
  split; [apply plain_set_not_carries|].
  split; [apply plain_set_not_carries|].
  apply (unrecognized_input_passes_through
           (operandParser PutMode) tagsSchema (VSet [VStr "a"]) noOptions);
    apply plain_set_not_carries.
Defined.

(** ** The builder chain of [ListSchema_] *)

Lemma overwrite_one (props : SchemaProps) name v :
  overwrite props {[ name := v ]} = <[ name := v ]> props.
Proof. unfold overwrite. by rewrite insert_union_singleton_l. Qed.

Lemma overwrite_two (props : SchemaProps) name1 v1 name2 v2 :
  overwrite props {[ name1 := v1; name2 := v2 ]}
  = <[ name1 := v1 ]> (<[ name2 := v2 ]> props).
Proof.
  unfold overwrite. by rewrite <- insert_union_l, <- insert_union_singleton_l.
Qed.

(** C10: [key(b)] sets the [key] property to [b] and overwrites [required]
    with ['always'], whatever was configured before; the element schema and
    every other property are kept, and a keyed attribute is required in every
    write mode. *)
Theorem key_forces_required_always (this : ListSchema_) (b : bool) :
  let keyed := ListSchema_.key this (Some b) in
  ls_props keyed !! "required" = Some (PV (VStr "always"))
  /\ ls_props keyed !! "key" = Some (PV (VBool b))
  /\ ls_elements keyed = ls_elements this
  /\ ls_props keyed
     = <[ "key" := PV (VBool b) ]>
         (<[ "required" := PV (VStr "always") ]> (ls_props this))
  /\ Parser.requiredMode (ls_props keyed) = always
  /\ (forall mode, Parser.isRequired (Parser.requiredMode (ls_props keyed)) mode = true).
Proof.
  simpl. rewrite overwrite_two.
  assert (Hreq : (<["key" := PV (VBool b)]>
                    (<["required" := requiredProp always]> (ls_props this)) : SchemaProps)
                 !! "required" = Some (PV (VStr "always"))).
  { rewrite lookup_insert_ne by done. by rewrite lookup_insert_eq. }
  repeat split.
  - exact Hreq.
  - by rewrite lookup_insert_eq.
  - unfold Parser.requiredMode. by rewrite Hreq.
  - intros mode. unfold Parser.requiredMode. by rewrite Hreq.
Qed.

(** C6 (as the code has it): every builder-style mutator returns a schema
    with the receiver's element schema; every mutator but [key] returns the
    receiver's property record with exactly one property, the one it is
    named after, overwritten; [key] overwrites two, [key] and [required].
    The receiver is a value and stays what it was. *)
Theorem mutator_overwrites (m : Mutator) (this : ListSchema_) :
  ls_elements (call m this) = ls_elements this
  /\ match m with
     | call_key nextKey =>
         ls_props (call m this)
         = <[ "key" := PV (VBool (default true nextKey)) ]>
             (<[ "required" := PV (VStr "always") ]> (ls_props this))
     | _ =>
         exists v, ls_props (call m this) = <[ target m this := v ]> (ls_props this)
     end.
Proof.
  destruct m; simpl;
    unfold ListSchema_.link, ListSchema_.validate, ListSchema_.default, ifThenElse;
    try destruct (propTruthy (ls_props this !! "key"));
    simpl; (split; [reflexivity|]);
    rewrite ?overwrite_one, ?overwrite_two; try reflexivity; by eexists.
Qed.

(** C6 (as stated) fails for [key]: on a list declared optional, [key(true)]
    changes both the [key] and the [required] property, so its result is not
    the receiver's record with one property overwritten. *)
Lemma key_overwrites_two_properties :
  ls_props optionalList !! "required" = Some (PV (VStr "never"))
  /\ ls_props (ListSchema_.key optionalList (Some true)) !! "required"
     = Some (PV (VStr "always"))
  /\ ls_props optionalList !! "key" = None
  /\ ls_props (ListSchema_.key optionalList (Some true)) !! "key"
     = Some (PV (VBool true))
  /\ ~ (exists name v,
         ls_props (ListSchema_.key optionalList (Some true))
         = <[ name := v ]> (ls_props optionalList)).
Proof.
  assert (Hbefore_required :
            ls_props optionalList !! "required" = Some (PV (VStr "never")))
    by (vm_compute; reflexivity).
  assert (Hafter_required :
            ls_props (ListSchema_.key optionalList (Some true)) !! "required"
            = Some (PV (VStr "always")))
    by (vm_compute; reflexivity).
  assert (Hbefore_key : ls_props optionalList !! "key" = None)
    by (vm_compute; reflexivity).
  assert (Hafter_key :
            ls_props (ListSchema_.key optionalList (Some true)) !! "key"
            = Some (PV (VBool true)))
    by (vm_compute; reflexivity).
  repeat split; try assumption.
  intros (name & v & Heq).
  destruct (decide (name = "key")) as [->|Hne].
  - rewrite Heq, lookup_insert_ne, Hbefore_required in Hafter_required by done.
    discriminate.
  - rewrite Heq, lookup_insert_ne, Hbefore_key in Hafter_key by done.
    discriminate.
Qed.

(** ** The parser engine *)

Lemma matchesShape_untagged mode schema v :
  matchesShape mode schema v = true -> forall tag, carriesTag tag v = false.
Proof.
  intros Hshape tag. destruct v as [| | | | | | |fields]; try reflexivity.
  destruct schema as [type props|elements props|elements props|attributes props];
    simpl in Hshape; try discriminate.
  - by destruct type.
  - apply andb_prop in Hshape as [Hshape _].
    apply andb_prop in Hshape as [Hkeys _].
    apply bool_decide_eq_true in Hkeys.
    unfold carriesTag.
    destruct (fields !! KSym tag) as [payload|] eqn:Hlookup; [|done].
    apply Hkeys in Hlookup. simpl in Hlookup.
    apply list_elem_of_fmap in Hlookup as (name & Hname & _). discriminate Hname.
Qed.

Lemma next_checkpoints o x rest :
  next (Parser.checkpoints o x rest)
  = inr (mkResult x (negb (transform o)), if transform o then rest else exhausted).
Proof. unfold Parser.checkpoints. by destruct (transform o). Qed.

Lemma checkpoints_givesBack o x rest : givesBack (Parser.checkpoints o x rest) x.
Proof. unfold givesBack. rewrite next_checkpoints. by eexists _, _. Qed.

Lemma validated_checkpoints mode props o v transformed :
  Parser.validatorFailure mode props v = None ->
  Parser.validated mode props o v transformed = Parser.checkpoints o v transformed.
Proof. intros Hv. unfold Parser.validated. by rewrite Hv. Qed.

Lemma resumeAll_givesBack gens vs :
  Forall2 givesBack gens vs -> exists gs, Parser.resumeAll gens = inr (vs, gs).
Proof.
  induction 1 as [|g v gens vs (r & g' & Hnext & <-) _ [gs IH]]; simpl.
  - by eexists.
  - rewrite Hnext, IH. by eexists.
Qed.

Lemma resumeAll_throws gens vs g e later :
  Forall2 givesBack gens vs -> next g = inl e ->
  Parser.resumeAll (gens ++ g :: later) = inl e.
Proof.
  intros Hgens Hg.
  induction Hgens as [|g0 v gens vs (r & g' & Hnext & _) _ IH]; simpl.
  - by rewrite Hg.
  - by rewrite Hnext, IH.
Qed.

Lemma Forall2_map_diag {A B} (P : B -> A -> Prop) (f : A -> B) (l : list A) :
  Forall (fun x => P (f x) x) l -> Forall2 P (map f l) l.
Proof. induction 1; simpl; by constructor. Qed.

Lemma Forall2_imap_diag {A B} (P : B -> A -> Prop) (f : nat -> A -> B) (l : list A) :
  (forall i x, l !! i = Some x -> P (f i x) x) -> Forall2 P (imap f l) l.
Proof.
  revert f. induction l as [|x l IH]; intros f Hf; simpl; constructor.
  - by apply (Hf 0).
  - apply IH. intros i y Hy. by apply (Hf (S i)).
Qed.

Section ChildrenFacts.

Variable parse : Schema -> Value -> ParseOptions -> Value -> Gen.
Variable o : ParseOptions.
Variable fields : gmap Key Value.

Lemma fillChildren_givesBack attrs siblings :
  Forall (fun a => forall st,
              givesBack
                (parse a.2 (getProp (VObj fields) (KStr a.1))
                   (Parser.childOptions o (SegName a.1)) st)
                (getProp (VObj fields) (KStr a.1))) attrs ->
  exists parsers,
    Parser.fillChildren parse o (VObj fields) attrs siblings
    = inr (readAll fields attrs siblings, parsers).
Proof.
  intros Hall. revert siblings.
  induction Hall as [|[name child] attrs Hchild _ IH]; intros siblings.
  - by eexists.
  - destruct (Hchild (VObj siblings)) as (r & g' & Hnext & Hvalue).
    simpl in *. rewrite Hnext, Hvalue.
    destruct (IH (Parser.insertDefined (KStr name)
                    (default VUndefined (fields !! KStr name)) siblings))
      as [parsers ->].
    by eexists.
Qed.

Lemma insertDefined_subseteq name siblings :
  siblings ⊆ fields ->
  Parser.insertDefined (KStr name) (getProp (VObj fields) (KStr name)) siblings ⊆ fields.
Proof.
  intros Hsub. unfold Parser.insertDefined. simpl.
  destruct (fields !! KStr name) as [v|] eqn:Hlookup; simpl; [|done].
  destruct (isDefined v); [|done].
  by apply insert_subseteq_l.
Qed.

Lemma readAll_subseteq attrs siblings :
  siblings ⊆ fields -> readAll fields attrs siblings ⊆ fields.
Proof.
  revert siblings. induction attrs as [|[name child] attrs IH]; intros siblings Hsub.
  - done.
  - apply IH. by apply insertDefined_subseteq.
Qed.

Lemma readAll_lookup attrs siblings k v :
  siblings ⊆ fields ->
  fields !! k = Some v -> isDefined v = true ->
  k ∈ (KStr <$> attrs.*1) \/ siblings !! k = Some v ->
  readAll fields attrs siblings !! k = Some v.
Proof.
  intros Hsub Hk Hv. revert siblings Hsub.
  induction attrs as [|[name child] attrs IH]; intros siblings Hsub Hin.
  - destruct Hin as [Hin|Hin]; [|done]. by apply elem_of_nil in Hin.
  - simpl. apply IH; [by apply insertDefined_subseteq|].
    destruct (decide (k = KStr name)) as [->|Hne].
    + right. unfold Parser.insertDefined. simpl. rewrite Hk. simpl. rewrite Hv.
      apply lookup_insert_eq.
    + destruct Hin as [Hin|Hin].
      * left. simpl in Hin. apply elem_of_cons in Hin as [Hin|Hin]; [done|].
        exact Hin.
      * right. unfold Parser.insertDefined.
        destruct (isDefined (default _ _)); [|done].
        rewrite lookup_insert_ne; [done|]. by intros <-.
Qed.

Lemma readAll_all attrs :
  Parser.keysConform attrs fields = true ->
  (forall k v, fields !! k = Some v -> isDefined v = true) ->
  readAll fields attrs ∅ = fields.
Proof.
  intros Hkeys Hdefined. apply bool_decide_eq_true in Hkeys.
  apply (anti_symm (⊆)).
  - apply readAll_subseteq, map_empty_subseteq.
  - apply map_subseteq_spec. intros k v Hk.
    apply readAll_lookup; [apply map_empty_subseteq|done|by eapply Hdefined|].
    left. by apply (Hkeys k v).
Qed.

End ChildrenFacts.

Section EngineFacts.

Variable mode : WriteMode.
Variable extension : option Extension.
Hypothesis Hdeclines : declinesUntagged extension.

Lemma tryExtension_untagged schema v o :
  (forall tag, carriesTag tag v = false) ->
  Parser.tryExtension extension schema v o = NotExtension v.
Proof.
  intros Hv. unfold Parser.tryExtension.
  destruct extension as [ext|] eqn:Hext; [|done].
  by apply (Hdeclines ext).
Qed.

Lemma startAt_absent schema o st :
  fill o = false ->
  matchesShape mode schema VUndefined = true ->
  Parser.startAt mode extension schema VUndefined o st
  = Parser.checkpoints o VUndefined (GReturn VUndefined).
Proof.
  intros Hfill Hshape.
  destruct schema; simpl in Hshape; apply negb_true_iff in Hshape;
    simpl; rewrite tryExtension_untagged by done; simpl;
    by rewrite Hfill, Hshape.
Qed.

(** Without filling, the first checkpoint of the parse of a matching input
    is the input itself. *)
Lemma startAt_first_checkpoint schema :
  forall input o st,
    fill o = false ->
    matchesShape mode schema input = true ->
    exists transformed,
      Parser.startAt mode extension schema input o st
      = Parser.checkpoints o input transformed.
Proof.
  induction schema as [type props|elements props IH|elements props IH|attributes props IH]
    using Schema_nested_ind;
    intros input o st Hfill Hshape;
    (destruct (isDefined input) eqn:Hdefined;
     [|destruct input; try discriminate; eexists; by apply startAt_absent]);
    pose proof (matchesShape_untagged _ _ _ Hshape) as Huntagged;
    simpl in Hshape; rewrite Hdefined in Hshape;
    apply andb_prop in Hshape as [Hkind Hvalid];
    apply bool_decide_eq_true in Hvalid;
    simpl; rewrite tryExtension_untagged by done; simpl; rewrite Hfill, Hdefined.
  - rewrite Hkind. eexists. by apply validated_checkpoints.
  - destruct input as [| | | | |members| |]; try discriminate.
    destruct (resumeAll_givesBack
                (map (fun x => Parser.startAt mode extension elements x o st) members)
                members) as [gs ->].
    + apply Forall2_map_diag, Forall_forall. intros x Hx.
      rewrite forallb_forall in Hkind.
      destruct (IH x o st Hfill) as [transformed ->].
      * apply Hkind. by apply list_elem_of_In.
      * apply checkpoints_givesBack.
    + eexists. by apply validated_checkpoints.
  - destruct input as [| | | | | |items|]; try discriminate.
    destruct (resumeAll_givesBack
                (imap (fun i x =>
                         Parser.startAt mode extension elements x
                           (Parser.childOptions o (SegIndex i)) st) items)
                items) as [gs ->].
    + apply Forall2_imap_diag. intros i x Hx.
      rewrite forallb_forall in Hkind.
      destruct (IH x (Parser.childOptions o (SegIndex i)) st Hfill) as [transformed ->].
      * apply Hkind. apply list_elem_of_In. by eapply list_elem_of_lookup_2.
      * apply checkpoints_givesBack.
    + eexists. by apply validated_checkpoints.
  - destruct input as [| | | | | | |fields]; try discriminate.
    apply andb_prop in Hkind as [Hkeys Hchildren].
    rewrite Hkeys.
    rewrite forallb_forall in Hchildren.
    destruct (fillChildren_givesBack
                (fun child x o' siblings =>
                   Parser.startAt mode extension child x o' siblings)
                o fields attributes ∅)
      as [parsers ->].
    + apply Forall_forall. intros [name child] Hin st'.
      rewrite Forall_forall in IH.
      destruct (IH _ Hin (getProp (VObj fields) (KStr name))
                  (Parser.childOptions o (SegName name)) st' Hfill)
        as [transformed Hchild].
      * apply list_elem_of_In in Hin. specialize (Hchildren _ Hin). simpl in *.
        destruct (fields !! KStr name) as [v|]; simpl; [|done].
        by apply andb_prop in Hchildren as [_ ?].
      * simpl in *. rewrite Hchild. apply checkpoints_givesBack.
    + rewrite readAll_all; [eexists; by apply validated_checkpoints|done|].
      intros k v Hk.
      apply bool_decide_eq_true in Hkeys.
      pose proof (Hkeys k v Hk) as Hname. simpl in Hname.
      apply list_elem_of_fmap in Hname as (name & -> & Hname).
      apply list_elem_of_fmap in Hname as ([name' child] & -> & Hin).
      apply list_elem_of_In in Hin. specialize (Hchildren _ Hin). simpl in *.
      rewrite Hk in Hchildren. by apply andb_prop in Hchildren as [? _].
Qed.

Lemma startAt_identity schema input path st :
  matchesShape mode schema input = true ->
  Parser.startAt mode extension schema input (mkOptions false false path) st
  = GReturn input.
Proof.
  intros Hshape.
  by destruct (startAt_first_checkpoint schema input (mkOptions false false path) st
                 eq_refl Hshape) as [transformed ->].
Qed.

End EngineFacts.

Lemma declinesUntagged_none : declinesUntagged None.
Proof. intros ext Hext. discriminate Hext. Qed.

Lemma declinesUntagged_update defaultMode :
  declinesUntagged (Some (parseUpdateExtension defaultMode)).
Proof.
  intros ext [= <-] schema v options Huntagged.
  destruct schema; try reflexivity.
  apply parseSetExtension_other; apply carriesTag_false, Huntagged.
Qed.

Lemma matchesShape_hasShape mode schema :
  forall input, matchesShape mode schema input = true -> hasShape mode schema input = true.
Proof.
  induction schema as [type props|elements props IH|elements props IH|attributes props IH]
    using Schema_nested_ind;
    intros input Hvalid; simpl in *;
    (destruct (isDefined input) eqn:Hdefined; [|done]);
    apply andb_prop in Hvalid as [Hkind _].
  - done.
  - destruct input; try done.
    rewrite forallb_forall in Hkind. apply forallb_forall. intros x Hx.
    by apply IH, Hkind.
  - destruct input; try done.
    rewrite forallb_forall in Hkind. apply forallb_forall. intros x Hx.
    by apply IH, Hkind.
  - destruct input as [| | | | | | |fields]; try done.
    apply andb_prop in Hkind as [Hkeys Hchildren]. rewrite Hkeys. simpl.
    rewrite forallb_forall in Hchildren. apply forallb_forall.
    intros [name child] Hin. specialize (Hchildren _ Hin). simpl in Hchildren.
    rewrite Forall_forall in IH.
    apply (IH (name, child)); [by apply list_elem_of_In|].
    destruct (fields !! KStr name) as [v|]; simpl; [|done].
    by apply andb_prop in Hchildren as [_ ?].
Qed.




Lemma getProp_singleton k v : getProp (singletonObj k v) k = v.
Proof. simpl. by rewrite lookup_singleton_eq. Qed.

Lemma parseSetExtension_singleton_ADD Parser_start schema v options :
  isDefined v = true ->
  parseSetExtension Parser_start schema (singletonObj (KSym ADD) v) options
  = IsExtension
      (rewrapped ADD
         (Parser_start (SetSchema_to_Schema schema) v (operandOptions options "$ADD"))
         (default true (ext_transform options))).
Proof.
  intros Hv. rewrite parseSetExtension_ADD by by apply carries_singleton.
  by rewrite getProp_singleton.
Qed.

Lemma parseSetExtension_singleton_DELETE Parser_start schema v options :
  isDefined v = true ->
  parseSetExtension Parser_start schema (singletonObj (KSym DELETE) v) options
  = IsExtension
      (rewrapped DELETE
         (Parser_start (SetSchema_to_Schema schema) v (operandOptions options "$DELETE"))
         (default true (ext_transform options))).
Proof.
  intros Hv.
  rewrite parseSetExtension_DELETE;
    [|by apply not_carries_singleton|by apply carries_singleton].
  by rewrite getProp_singleton.
Qed.

(** C2 (as the code has it): for an operand [v] that is valid against the
    set schema itself, parsing [{ADD: v}] (and likewise [{DELETE: v}]) with
    [transform: false] returns exactly the wrapper it was given: the operand
    is parsed with [fill: false], whatever defaults and links the schema
    has. *)
Theorem add_operand_returned_unchanged
    (defaultMode : WriteMode) (schema : SetSchema) (v : Value)
    (options : ExtensionParserOptions) :
  isDefined v = true ->
  matchesShape defaultMode (SetSchema_to_Schema schema) v = true ->
  ext_transform options = Some false ->
  parseSetExtension (operandParser defaultMode) schema (singletonObj (KSym ADD) v) options
  = IsExtension (GReturn (singletonObj (KSym ADD) v))
  /\ parseSetExtension (operandParser defaultMode) schema
       (singletonObj (KSym DELETE) v) options
     = IsExtension (GReturn (singletonObj (KSym DELETE) v)).
Proof.
  intros Hv Hshape Htransform.
  rewrite parseSetExtension_singleton_ADD, parseSetExtension_singleton_DELETE by done.
  unfold operandOptions, operandParser, Parser.start. rewrite Htransform.
  change (default true (Some false)) with false.
  by rewrite !(startAt_identity defaultMode None declinesUntagged_none _ v _ _ Hshape).
Qed.

Lemma add_operand_returned_unchanged_witness :
  isDefined (VSet [VStr "a"]) = true
  /\ matchesShape PutMode (SetSchema_to_Schema tagsSchema) (VSet [VStr "a"]) = true
  /\ ext_transform (atTags false) = Some false
  /\ parseSetExtension (operandParser PutMode) tagsSchema
       (singletonObj (KSym ADD) (VSet [VStr "a"])) (atTags false)
     = IsExtension (GReturn (singletonObj (KSym ADD) (VSet [VStr "a"])))
  /\ parseSetExtension (operandParser PutMode) tagsSchema
       (singletonObj (KSym DELETE) (VSet [VStr "a"])) (atTags false)
     = IsExtension (GReturn (singletonObj (KSym DELETE) (VSet [VStr "a"]))).
Proof.
  split; [reflexivity|].
  split; [vm_compute; reflexivity|].
  split; [reflexivity|].
  apply (add_operand_returned_unchanged PutMode tagsSchema (VSet [VStr "a"]) (atTags false)).
  - reflexivity.
  - vm_compute. reflexivity.
  - reflexivity.
Defined.

(** C2 (as stated) fails: the string ['a'] is valid against the element
    schema of [tags], yet parsing [{ADD: 'a'}] with [transform: false] does
    not return [{ADD: 'a'}]: the operand is checked against the set schema
    and is a type mismatch. *)
Lemma add_operand_valid_for_elements_rejected :
  isDefined (VStr "a") = true
  /\ matchesShape PutMode (set_elements tagsSchema) (VStr "a") = true
  /\ parseSetExtension (operandParser PutMode) tagsSchema
       (singletonObj (KSym ADD) (VStr "a")) (atTags false)
     = IsExtension (GThrow (mkError [SegName "tags"; SegName "$ADD"] TypeMismatch))
  /\ parseSetExtension (operandParser PutMode) tagsSchema
       (singletonObj (KSym ADD) (VStr "a")) (atTags false)
     <> IsExtension (GReturn (singletonObj (KSym ADD) (VStr "a"))).
Proof.
  split; [reflexivity|].
  split; [vm_compute; reflexivity|].
  split; [vm_compute; reflexivity|].
  intros H. vm_compute in H. discriminate H.
Qed.

Lemma startAt_wrong_kind mode schema v o st :
  isDefined v = true ->
  checkKind schema v = false ->
  Parser.startAt mode None schema v o st
  = GThrow (mkError (valuePath o) TypeMismatch).
Proof.
  intros Hv Hkind.
  assert (Hfilled :
            (if fill o then Parser.fillValue mode (schemaProps schema) st v else v) = v).
  { unfold Parser.fillValue. rewrite Hv. by destruct (fill o). }
  destruct schema; simpl in *; rewrite Hfilled, Hv.
  - by rewrite Hkind.
  - by destruct v.
  - by destruct v.
  - destruct v; try done. by rewrite Hkind.
Qed.

Lemma startAt_wrong_member mode elements props before bad after o st :
  fill o = false ->
  forallb (matchesShape mode elements) before = true ->
  isDefined bad = true ->
  checkKind elements bad = false ->
  Parser.startAt mode None (SSet elements props) (VSet (before ++ bad :: after)) o st
  = GThrow (mkError (valuePath o) TypeMismatch).
Proof.
  intros Hfill Hbefore Hbad Hkind. simpl. rewrite Hfill.
  rewrite map_app. simpl.
  rewrite (resumeAll_throws _ before _ (mkError (valuePath o) TypeMismatch)); [done| |].
  - apply Forall2_map_diag, Forall_forall. intros x Hx.
    rewrite forallb_forall in Hbefore.
    destruct (startAt_first_checkpoint mode None declinesUntagged_none elements x o st Hfill)
      as [transformed ->].
    + apply Hbefore. by apply list_elem_of_In.
    + apply checkpoints_givesBack.
  - by rewrite startAt_wrong_kind.
Qed.

(** C3 (as the code has it): when the operand [v] of [{DELETE: v}] is
    defined and fails the type check of the set schema itself (it is not a
    Set, or its first member that does not match the element schema is a
    defined value of the wrong type), the first resume raises TypeMismatch at
    the base path extended by the segment ['$DELETE']. *)
Theorem delete_operand_type_mismatch
    (defaultMode : WriteMode) (schema : SetSchema) (v : Value)
    (options : ExtensionParserOptions) :
  isDefined v = true ->
  failsSetCheck defaultMode schema v ->
  exists producer,
    parseSetExtension (operandParser defaultMode) schema
      (singletonObj (KSym DELETE) v) options
    = IsExtension producer
    /\ next producer
       = inl (mkError (default [] (ext_valuePath options) ++ [SegName "$DELETE"])
                TypeMismatch).
Proof.
  intros Hv Hfails. eexists. split.
  - by apply parseSetExtension_singleton_DELETE.
  - unfold operandParser, Parser.start, SetSchema_to_Schema.
    destruct Hfails as [Hkind|(before & bad & after & -> & Hbefore & Hbad & Hkind)].
    + by rewrite startAt_wrong_kind.
    + by rewrite startAt_wrong_member.
Qed.

Lemma delete_operand_type_mismatch_witness :
  isDefined (VSet [VStr "a"; VNum 5]) = true
  /\ failsSetCheck PutMode tagsSchema (VSet [VStr "a"; VNum 5])
  /\ exists producer,
       parseSetExtension (operandParser PutMode) tagsSchema
         (singletonObj (KSym DELETE) (VSet [VStr "a"; VNum 5])) (atTags true)
       = IsExtension producer
       /\ next producer
          = inl (mkError (default [] (ext_valuePath (atTags true)) ++ [SegName "$DELETE"])
                   TypeMismatch).
Proof.
  assert (Hfails : failsSetCheck PutMode tagsSchema (VSet [VStr "a"; VNum 5])).
  { right. exists [VStr "a"], (VNum 5), []. repeat split; reflexivity. }
  split; [reflexivity|].
  split; [exact Hfails|].
  apply (delete_operand_type_mismatch PutMode tagsSchema (VSet [VStr "a"; VNum 5])
           (atTags true)).
  - reflexivity.
  - exact Hfails.
Defined.

(** C3 (as stated) fails twice.  The number [5] fails the type check of the
    element schema of [tags]; the error is raised at [tags/$DELETE], and the
    segment is ['$DELETE'], not ['DELETE'].  The set [Set ['a']] fails the
    type check of the element schema too (it is no string), and parsing
    [{DELETE: Set ['a']}] raises nothing. *)
Lemma delete_operand_segment_and_schema :
  checkKind (set_elements tagsSchema) (VNum 5) = false
  /\ parseSetExtension (operandParser PutMode) tagsSchema
       (singletonObj (KSym DELETE) (VNum 5)) (atTags true)
     = IsExtension (GThrow (mkError [SegName "tags"; SegName "$DELETE"] TypeMismatch))
  /\ [SegName "tags"; SegName "$DELETE"] <> [SegName "tags"] ++ [SegName "DELETE"]
  /\ checkKind (set_elements tagsSchema) (VSet [VStr "a"]) = false
  /\ parseSetExtension (operandParser PutMode) tagsSchema
       (singletonObj (KSym DELETE) (VSet [VStr "a"])) (atTags true)
     = IsExtension
         (GYield (singletonObj (KSym DELETE) (VSet [VStr "a"]))
            (GReturn (singletonObj (KSym DELETE) (VSet [VStr "a"])))).
Proof.
  split; [reflexivity|].
  split; [vm_compute; reflexivity|].
  split; [discriminate|].
  split; [reflexivity|].
  vm_compute. reflexivity.
Qed.

Lemma fillValue_unresolved mode props filledState :
  props !! Parser.defaultName mode = None ->
  props !! Parser.linkName mode = None ->
  Parser.fillValue mode props filledState VUndefined = VUndefined.
Proof.
  intros Hdefault Hlink.
  unfold Parser.fillValue, Parser.fromLink, Parser.fromDefault.
  by rewrite Hdefault, Hlink.
Qed.

Lemma startAt_absent_unresolved mode extension schema o st :
  declinesUntagged extension ->
  schemaProps schema !! Parser.defaultName mode = None ->
  schemaProps schema !! Parser.linkName mode = None ->
  Parser.startAt mode extension schema VUndefined o st
  = if Parser.isRequired (Parser.requiredMode (schemaProps schema)) mode
    then GThrow (mkError (valuePath o) RequiredAttributeMissing)
    else Parser.checkpoints o VUndefined (GReturn VUndefined).
Proof.
  intros Hdeclines Hdefault Hlink.
  destruct schema; simpl in *;
    rewrite (tryExtension_untagged extension Hdeclines) by done;
    rewrite (fillValue_unresolved _ _ _ Hdefault Hlink);
    by destruct (fill o).
Qed.

(** C8: whether an absent attribute is an error depends only on its required
    mode and on the write mode.  With no default and no link to resolve a
    value, the parse of an absent attribute raises RequiredAttributeMissing
    at the attribute's path exactly when the required mode makes it required
    in the active mode, and otherwise succeeds with the attribute left
    absent; AtLeastOnce requires it in create mode only, Always in every
    mode, Never in none.  So an absent AtLeastOnce attribute parses in update
    mode and raises RequiredAttributeMissing in create mode with
    [fill: true]. *)
Theorem required_depends_on_mode_only
    (extension : option Extension) (schema : Schema)
    (transform : bool) (path : ValuePath) :
  declinesUntagged extension ->
  (forall mode, schemaProps schema !! Parser.defaultName mode = None) ->
  (forall mode, schemaProps schema !! Parser.linkName mode = None) ->
  (forall mode fill,
     Parser.start mode extension schema VUndefined (mkOptions fill transform path)
     = if Parser.isRequired (Parser.requiredMode (schemaProps schema)) mode
       then GThrow (mkError path RequiredAttributeMissing)
       else Parser.checkpoints (mkOptions fill transform path) VUndefined
              (GReturn VUndefined))
  /\ (forall mode, Parser.isRequired atLeastOnce mode = true <-> mode = PutMode)
  /\ (forall mode, Parser.isRequired always mode = true)
  /\ (forall mode, Parser.isRequired never mode = false)
  /\ match Parser.requiredMode (schemaProps schema) with
     | atLeastOnce =>
         (forall fill,
            Parser.start UpdateMode extension schema VUndefined
              (mkOptions fill transform path)
            = Parser.checkpoints (mkOptions fill transform path) VUndefined
                (GReturn VUndefined))
         /\ Parser.start PutMode extension schema VUndefined
              (mkOptions true transform path)
            = GThrow (mkError path RequiredAttributeMissing)
     | always =>
         forall mode fill,
           Parser.start mode extension schema VUndefined (mkOptions fill transform path)
           = GThrow (mkError path RequiredAttributeMissing)
     | never =>
         forall mode fill,
           Parser.start mode extension schema VUndefined (mkOptions fill transform path)
           = Parser.checkpoints (mkOptions fill transform path) VUndefined
               (GReturn VUndefined)
     end.
Proof.
  intros Hdeclines Hdefault Hlink.
  assert (Hstart : forall mode fill,
             Parser.start mode extension schema VUndefined (mkOptions fill transform path)
             = if Parser.isRequired (Parser.requiredMode (schemaProps schema)) mode
               then GThrow (mkError path RequiredAttributeMissing)
               else Parser.checkpoints (mkOptions fill transform path) VUndefined
                      (GReturn VUndefined)).
  { intros mode fill. unfold Parser.start.
    by rewrite startAt_absent_unresolved. }
  split; [exact Hstart|].
  split; [intros []; simpl; split; intros; done|].
  split; [done|].
  split; [done|].
  destruct (Parser.requiredMode (schemaProps schema)) eqn:Hmode.
  - split; [intros fill|]; by rewrite Hstart.
  - intros mode fill. by rewrite Hstart.
  - intros mode fill. by rewrite Hstart.
Qed.

Lemma required_depends_on_mode_only_witness :
  declinesUntagged (Some (parseUpdateExtension PutMode))
  /\ (forall mode, schemaProps stringSchema !! Parser.defaultName mode = None)
  /\ (forall mode, schemaProps stringSchema !! Parser.linkName mode = None)
  /\ Parser.requiredMode (schemaProps stringSchema) = atLeastOnce
  /\ Parser.start UpdateMode (Some (parseUpdateExtension PutMode)) stringSchema VUndefined
       (mkOptions true true [SegName "name"])
     = GYield VUndefined (GReturn VUndefined)
  /\ Parser.start PutMode (Some (parseUpdateExtension PutMode)) stringSchema VUndefined
       (mkOptions true true [SegName "name"])
     = GThrow (mkError [SegName "name"] RequiredAttributeMissing).
Proof.
  split; [apply declinesUntagged_update|].
  split; [intros []; reflexivity|].
  split; [intros []; reflexivity|].
  split; [reflexivity|].
  pose proof (required_depends_on_mode_only
                (Some (parseUpdateExtension PutMode)) stringSchema true [SegName "name"]
                (declinesUntagged_update PutMode)
                (fun mode => match mode with
                             | KeyMode | PutMode | UpdateMode => eq_refl
                             end)
                (fun mode => match mode with
                             | KeyMode | PutMode | UpdateMode => eq_refl
                             end))
    as (Hstart & _).
  split.
  - exact (Hstart UpdateMode true).
  - exact (Hstart PutMode true).
Defined.

(** The same on an item: the absent attribute [name] of [itemSchema] is
    reported at the path [name] in create mode, and left absent in update
    mode. *)
Example absent_attribute_of_item :
  Parser.start PutMode None itemSchema (VObj ∅) (mkOptions true true [])
  = GThrow (mkError [SegName "qty"] RequiredAttributeMissing)
  /\ Parser.start PutMode None itemSchema (VObj {[ KStr "qty" := VSet [] ]})
       (mkOptions true true [])
     = GThrow (mkError [SegName "name"] RequiredAttributeMissing)
  /\ Parser.start UpdateMode (Some (parseUpdateExtension PutMode)) itemSchema
       (VObj {[ KStr "qty" := VSet [] ]}) (mkOptions true true [])
     = GYield (VObj {[ KStr "qty" := VSet [] ]})
         (GReturn (VObj {[ KStr "qty" := VSet [] ]})).
Proof. repeat split; vm_compute; reflexivity. Qed.


(** The three examples of section 8 of the spec, run on the engine. *)
Example spec_example_qty :
  Parser.start PutMode None qtyItem (VObj ∅) (mkOptions true true [])
  = GYield (VObj {[ KStr "qty" := VSet [] ]})
      (GReturn (VObj {[ KStr "qty" := VSet [] ]})).
Proof. vm_compute. reflexivity. Qed.

Example spec_example_tags :
  Parser.start UpdateMode (Some (parseUpdateExtension PutMode)) tagsItem
    (VObj {[ KStr "tags" := addSetOfA ]}) (mkOptions true true [])
  = GYield (VObj {[ KStr "tags" := addSetOfA ]})
      (GReturn (VObj {[ KStr "tags" := addSetOfA ]})).
Proof. vm_compute. reflexivity. Qed.

Example spec_example_pk :
  Parser.start PutMode None pkItem (VObj ∅) (mkOptions true true [])
  = GYield (VObj {[ KStr "pk" := VNum 5 ]})
      (GReturn (VObj {[ KStr "pk_stored" := VNum 5 ]})).
Proof. vm_compute. reflexivity. Qed.

(* ===================================================================== *)
(** * Further properties of the sources *)
(* ===================================================================== *)

(** ** Chains of mutators of [ListSchema_] *)

Lemma ListSchema_eq (s1 s2 : ListSchema_) :
  ls_elements s1 = ls_elements s2 -> ls_props s1 = ls_props s2 -> s1 = s2.
Proof. destruct s1, s2. simpl. by intros -> ->. Qed.

Lemma call_elements m this : ls_elements (call m this) = ls_elements this.
Proof.
  destruct m; simpl; try reflexivity;
    unfold ListSchema_.link, ListSchema_.validate, ListSchema_.default, ifThenElse;
    by destruct (propTruthy (ls_props this !! "key")).
Qed.

Lemma call_props m this :
  isKeyCall m = false ->
  ls_props (call m this) = <[ target m this := written m ]> (ls_props this).
Proof.
  intros Hkey. destruct m; try discriminate; simpl;
    unfold ListSchema_.link, ListSchema_.validate, ListSchema_.default, ifThenElse;
    try destruct (propTruthy (ls_props this !! "key"));
    simpl; by rewrite overwrite_one.
Qed.

Lemma key_props this k :
  ls_props (ListSchema_.key this k)
  = <[ "key" := PV (VBool (default true k)) ]>
      (<[ "required" := requiredProp always ]> (ls_props this)).
Proof. simpl. by rewrite overwrite_two. Qed.

Lemma target_not_key m this : isKeyCall m = false -> target m this <> "key".
Proof.
  intros Hkey. destruct m; try discriminate; simpl;
    try destruct (propTruthy (ls_props this !! "key")); discriminate.
Qed.

Lemma target_writable m this : target m this ∈ writableNames.
Proof.
  destruct m; simpl; try destruct (propTruthy (ls_props this !! "key"));
    unfold writableNames; set_solver.
Qed.

Lemma target_stable m m' this :
  isKeyCall m' = false -> target m (call m' this) = target m this.
Proof.
  intros Hkey.
  assert (Hsame : ls_props (call m' this) !! "key" = ls_props this !! "key").
  { rewrite call_props by done. apply lookup_insert_ne. by apply target_not_key. }
  destruct m; simpl; by rewrite ?Hsame.
Qed.

(** X1: of two calls that write the same property, the later one wins: the
    result is what the later call alone gives. *)
Theorem mutator_last_write_wins (m1 m2 : Mutator) (this : ListSchema_) :
  isKeyCall m1 = false -> isKeyCall m2 = false ->
  target m1 this = target m2 this ->
  call m2 (call m1 this) = call m2 this.
Proof.
  intros Hkey1 Hkey2 Htarget. apply ListSchema_eq.
  - by rewrite !call_elements.
  - rewrite (call_props m2 (call m1 this)), (call_props m2 this), (call_props m1 this)
      by done.
    rewrite target_stable by done. rewrite Htarget. apply insert_insert_eq.
Qed.

Lemma mutator_last_write_wins_witness :
  isKeyCall (call_required (Some always)) = false
  /\ isKeyCall call_optional = false
  /\ target (call_required (Some always)) optionalList = target call_optional optionalList
  /\ call call_optional (call (call_required (Some always)) optionalList)
     = call call_optional optionalList.
Proof.
  split; [reflexivity|]. split; [reflexivity|]. split; [reflexivity|].
  apply (mutator_last_write_wins (call_required (Some always)) call_optional optionalList);
    reflexivity.
Defined.

(** X2: two calls that write different properties, neither of them [key],
    commute. *)
Theorem mutators_commute (m1 m2 : Mutator) (this : ListSchema_) :
  isKeyCall m1 = false -> isKeyCall m2 = false ->
  target m1 this <> target m2 this ->
  call m1 (call m2 this) = call m2 (call m1 this).
Proof.
  intros Hkey1 Hkey2 Htarget. apply ListSchema_eq.
  - by rewrite !call_elements.
  - rewrite (call_props m1 (call m2 this)), (call_props m2 (call m1 this)),
      (call_props m1 this), (call_props m2 this) by done.
    rewrite !target_stable by done. by apply insert_insert_ne.
Qed.

Lemma mutators_commute_witness :
  isKeyCall (call_hidden None) = false
  /\ isKeyCall (call_savedAs (Some "l")) = false
  /\ target (call_hidden None) optionalList <> target (call_savedAs (Some "l")) optionalList
  /\ call (call_hidden None) (call (call_savedAs (Some "l")) optionalList)
     = call (call_savedAs (Some "l")) (call (call_hidden None) optionalList).
Proof.
  split; [reflexivity|]. split; [reflexivity|]. split; [discriminate|].
  apply (mutators_commute (call_hidden None) (call_savedAs (Some "l")) optionalList);
    [reflexivity|reflexivity|discriminate].
Defined.

Ltac inserts_equal :=
  apply map_eq; intros ?; rewrite !lookup_insert;
  repeat case_decide; simplify_eq; done.

(** X3: [key] commutes with every mutator whose target neither is nor
    depends on [key] or [required]. *)
Theorem key_commutes_with_independent (m : Mutator) (this : ListSchema_)
    (nextKey : option bool) :
  keyIndependent m = true ->
  call m (ListSchema_.key this nextKey) = ListSchema_.key (call m this) nextKey.
Proof.
  intros Hind. apply ListSchema_eq.
  - rewrite call_elements. simpl. by rewrite call_elements.
  - assert (Hkey : isKeyCall m = false) by by destruct m.
    rewrite call_props, !key_props, call_props by done.
    destruct m; try discriminate; simpl; inserts_equal.
Qed.

Lemma key_commutes_with_independent_witness :
  keyIndependent (call_savedAs (Some "pk")) = true
  /\ call (call_savedAs (Some "pk")) (ListSchema_.key optionalList None)
     = ListSchema_.key (call (call_savedAs (Some "pk")) optionalList) None.
Proof.
  split; [reflexivity|].
  apply (key_commutes_with_independent (call_savedAs (Some "pk")) optionalList None).
  reflexivity.
Defined.

(** X4: [key] and [required] do not commute.  [required] called after [key]
    writes its own argument over the ['always'] of [key], so a keyed
    attribute can be made optional again; [key] called after [required]
    always ends with ['always'].  A second [key] call replaces the first. *)
Theorem required_after_key_wins (this : ListSchema_) (nextKey : option bool)
    (nextRequired : option SchemaRequiredProp) :
  ls_props (ListSchema_.required (ListSchema_.key this nextKey) nextRequired)
  = <[ "required" := requiredProp (default atLeastOnce nextRequired) ]>
      (<[ "key" := PV (VBool (default true nextKey)) ]> (ls_props this))
  /\ ls_props (ListSchema_.optional (ListSchema_.key this nextKey))
     = <[ "required" := requiredProp never ]>
         (<[ "key" := PV (VBool (default true nextKey)) ]> (ls_props this))
  /\ ls_props (ListSchema_.key (ListSchema_.required this nextRequired) nextKey)
     = <[ "required" := requiredProp always ]>
         (<[ "key" := PV (VBool (default true nextKey)) ]> (ls_props this))
  /\ forall laterKey,
       ListSchema_.key (ListSchema_.key this nextKey) laterKey
       = ListSchema_.key this laterKey.
Proof.
  repeat split.
  - change (ListSchema_.required ?s ?r) with (call (call_required r) s).
    rewrite call_props, key_props by done. simpl. inserts_equal.
  - change (ListSchema_.optional ?s) with (call call_optional s).
    rewrite call_props, key_props by done. simpl. inserts_equal.
  - change (ListSchema_.required ?s ?r) with (call (call_required r) s).
    rewrite key_props, call_props by done. simpl. inserts_equal.
  - intros laterKey. apply ListSchema_eq; [simpl; reflexivity|].
    rewrite !key_props. inserts_equal.
Qed.

Lemma propTruthy_key this nextKey :
  propTruthy (ls_props (ListSchema_.key this nextKey) !! "key") = default true nextKey.
Proof. rewrite key_props, lookup_insert_eq. reflexivity. Qed.

(** X5: [default], [link] and [validate] follow the [key] tag of the
    receiver: right after [key(b)] they are [keyDefault], [keyLink] and
    [keyValidate] when [b] is true (or left out), and [putDefault], [putLink]
    and [putValidate] when [b] is false. *)
Theorem default_link_validate_follow_key (this : ListSchema_) (nextKey : option bool)
    (d : PropVal) (f : Value -> Value) :
  let keyed := ListSchema_.key this nextKey in
  ListSchema_.default keyed d
  = (if default true nextKey
     then ListSchema_.keyDefault keyed d else ListSchema_.putDefault keyed d)
  /\ ListSchema_.link keyed f
     = (if default true nextKey
        then ListSchema_.keyLink keyed f else ListSchema_.putLink keyed f)
  /\ ListSchema_.validate keyed f
     = (if default true nextKey
        then ListSchema_.keyValidate keyed f else ListSchema_.putValidate keyed f).
Proof.
  intros keyed.
  unfold ListSchema_.default, ListSchema_.link, ListSchema_.validate, ifThenElse.
  subst keyed. rewrite propTruthy_key.
  by destruct (default true nextKey).
Qed.

(** X6: the order of [default] and [key] matters.  On a receiver that is not
    keyed, [default(d)] followed by [key()] leaves [d] as the put default and
    the key default as it was, whereas [key()] followed by [default(d)] makes
    [d] the key default and leaves the put default as it was. *)
Theorem default_before_key_is_put_default (this : ListSchema_) (d : PropVal) :
  propTruthy (ls_props this !! "key") = false ->
  let early := ListSchema_.key (ListSchema_.default this d) None in
  let late := ListSchema_.default (ListSchema_.key this None) d in
  ls_props early !! "putDefault" = Some d
  /\ ls_props early !! "keyDefault" = ls_props this !! "keyDefault"
  /\ ls_props late !! "keyDefault" = Some d
  /\ ls_props late !! "putDefault" = ls_props this !! "putDefault".
Proof.
  intros Hkey early late. subst early late.
  assert (Hearly : ls_props (ListSchema_.default this d)
                   = <[ "putDefault" := d ]> (ls_props this)).
  { unfold ListSchema_.default, ifThenElse. rewrite Hkey. simpl.
    by rewrite overwrite_one. }
  assert (Hlate : ls_props (ListSchema_.default (ListSchema_.key this None) d)
                  = <[ "keyDefault" := d ]> (ls_props (ListSchema_.key this None))).
  { unfold ListSchema_.default, ifThenElse. rewrite propTruthy_key. simpl.
    by rewrite overwrite_one. }
  rewrite Hlate, !key_props, Hearly.
  repeat split; rewrite !lookup_insert; repeat case_decide; simplify_eq; done.
Qed.

Lemma default_before_key_is_put_default_witness :
  propTruthy (ls_props optionalList !! "key") = false
  /\ ls_props (ListSchema_.key (ListSchema_.default optionalList (PV (VList []))) None)
       !! "putDefault" = Some (PV (VList []))
  /\ ls_props (ListSchema_.key (ListSchema_.default optionalList (PV (VList []))) None)
       !! "keyDefault" = ls_props optionalList !! "keyDefault"
  /\ ls_props (ListSchema_.default (ListSchema_.key optionalList None) (PV (VList [])))
       !! "keyDefault" = Some (PV (VList []))
  /\ ls_props (ListSchema_.default (ListSchema_.key optionalList None) (PV (VList [])))
       !! "putDefault" = ls_props optionalList !! "putDefault".
Proof.
  split; [reflexivity|].
  apply (default_before_key_is_put_default optionalList (PV (VList []))).
  reflexivity.
Defined.

Lemma call_frame m this name :
  name ∉ writableNames -> ls_props (call m this) !! name = ls_props this !! name.
Proof.
  intros Hname. destruct (isKeyCall m) eqn:Hkey.
  - destruct m; try discriminate. simpl call. rewrite key_props.
    rewrite !lookup_insert_ne; [done| |];
      intros <-; apply Hname; unfold writableNames; set_solver.
  - rewrite call_props by done. apply lookup_insert_ne.
    intros <-. apply Hname, target_writable.
Qed.

Lemma call_keeps m this name :
  is_Some (ls_props this !! name) -> is_Some (ls_props (call m this) !! name).
Proof.
  intros Hsome. destruct (isKeyCall m) eqn:Hkey.
  - destruct m; try discriminate. simpl call. rewrite key_props.
    rewrite !lookup_insert. by repeat case_decide.
  - rewrite call_props by done. rewrite lookup_insert. by case_decide.
Qed.

(** X7: no chain of mutator calls touches a property that is not one of the
    thirteen the mutators write (a [transform], say). *)
Theorem chain_frame (ms : list Mutator) (this : ListSchema_) (name : string) :
  name ∉ writableNames ->
  ls_props (chain ms this) !! name = ls_props this !! name.
Proof.
  intros Hname. revert this. induction ms as [|m ms IH]; intros this; [done|].
  simpl. rewrite IH. by apply call_frame.
Qed.

Lemma chain_frame_witness :
("transform" ∉ writableNames)
  /\ ls_props (chain [call_key None; call_optional; call_default (PV (VList []))]
                 optionalList) !! "transform"
     = ls_props optionalList !! "transform".
Proof.
  assert (Hname : "transform" ∉ writableNames).
  { unfold writableNames. rewrite !not_elem_of_cons.
    repeat split; try discriminate. apply not_elem_of_nil. }
  split; [exact Hname|].
  by apply (chain_frame [call_key None; call_optional; call_default (PV (VList []))]
              optionalList "transform").
Defined.

(** X8: a chain of mutator calls keeps the element schema and never removes
    a property: every property of the receiver is still set in the result. *)
Theorem chain_keeps_elements_and_properties (ms : list Mutator) (this : ListSchema_) :
  ls_elements (chain ms this) = ls_elements this
  /\ dom (ls_props this) ⊆ dom (ls_props (chain ms this)).
Proof.
  revert this. induction ms as [|m ms IH]; intros this; [done|].
  simpl. destruct (IH (call m this)) as [Helements Hdom]. split.
  - by rewrite Helements, call_elements.
  - etrans; [|exact Hdom]. intros name. rewrite !elem_of_dom. apply call_keeps.
Qed.

(** X9: [clone] is the general mutator.  Cloning with no properties gives
    the receiver back; two clones in a row are one clone with the second
    record laid over the first; every mutator call is the clone with the
    properties it writes; and [list(e).clone(p)] is [list(e, p)]. *)
Theorem clone_laws (this : ListSchema_) :
  ListSchema_.clone this ∅ = this
  /\ (forall p1 p2,
        ListSchema_.clone (ListSchema_.clone this p1) p2
        = ListSchema_.clone this (overwrite p1 p2))
  /\ (forall m,
        call m this
        = ListSchema_.clone this
            (match m with
             | call_key _ => {[ "key" := written m; "required" := requiredProp always ]}
             | _ => {[ target m this := written m ]}
             end))
  /\ (forall light elements p,
        ListSchema_.clone (ListSchemer.list light elements None) p
        = ListSchemer.list light elements (Some p)).
Proof.
  repeat split.
  - apply ListSchema_eq; [simpl; reflexivity|]. simpl. unfold overwrite. apply (left_id ∅ (∪)).
  - intros p1 p2. apply ListSchema_eq; [simpl; reflexivity|]. simpl. unfold overwrite.
    apply (assoc (∪)).
  - intros m. apply ListSchema_eq; [by rewrite call_elements|].
    destruct (isKeyCall m) eqn:Hkey.
    + destruct m; try discriminate. reflexivity.
    + rewrite call_props by done. simpl. rewrite <- overwrite_one.
      by destruct m.
  - intros light elements p. apply ListSchema_eq; [simpl; reflexivity|]. simpl. unfold overwrite.
    apply (right_id ∅ (∪)).
Qed.

(** ** The Set extension: what it reads of a wrapper *)

Lemma carries_addAndDelete : carries ADD addAndDelete /\ carries DELETE addAndDelete.
Proof.
  split.
  - exists {[ KSym ADD := VSet [VStr "a"]; KSym DELETE := VSet [VStr "b"];
              KStr "note" := VStr "x" ]}, (VSet [VStr "a"]).
    split; [reflexivity | split; [reflexivity | discriminate]].
  - exists {[ KSym ADD := VSet [VStr "a"]; KSym DELETE := VSet [VStr "b"];
              KStr "note" := VStr "x" ]}, (VSet [VStr "b"]).
    split; [reflexivity | split; [reflexivity | discriminate]].
Defined.

(** X10: of a wrapper the extension reads one payload only.  When the input
    carries [$ADD], the answer is the one for the bare wrapper
    [{ [$ADD]: payload }]: a [$DELETE] carried by the same object and every
    other property are ignored.  When it carries [$DELETE] and no [$ADD], the
    answer is the one for the bare [{ [$DELETE]: payload }]. *)
Theorem extension_reads_one_payload
    (Parser_start : Schema -> Value -> ParseOptions -> Gen)
    (schema : SetSchema) (input : Value) (options : ExtensionParserOptions) :
  (carries ADD input ->
   parseSetExtension Parser_start schema input options
   = parseSetExtension Parser_start schema
       (singletonObj (KSym ADD) (getProp input (KSym ADD))) options)
  /\ (~ carries ADD input -> carries DELETE input ->
      parseSetExtension Parser_start schema input options
      = parseSetExtension Parser_start schema
          (singletonObj (KSym DELETE) (getProp input (KSym DELETE))) options).
Proof.
  split.
  - intros Hadd.
    rewrite parseSetExtension_singleton_ADD by by apply carries_getProp.
    by apply parseSetExtension_ADD.
  - intros Hadd Hdel.
    rewrite parseSetExtension_singleton_DELETE by by apply carries_getProp.
    by apply parseSetExtension_DELETE.
Qed.

Lemma extension_reads_one_payload_witness :
  carries ADD addAndDelete
  /\ parseSetExtension (operandParser PutMode) tagsSchema addAndDelete noOptions
     = parseSetExtension (operandParser PutMode) tagsSchema
         (singletonObj (KSym ADD) (getProp addAndDelete (KSym ADD))) noOptions.
Proof.
  split; [exact (proj1 carries_addAndDelete)|].
  exact (proj1 (extension_reads_one_payload
                  (operandParser PutMode) tagsSchema addAndDelete noOptions)
           (proj1 carries_addAndDelete)).
Defined.

(** ** The item formatter *)

Section ItemZodFormatterFacts.

Variable ZodType : Type.
Variable z_object : gmap string ZodType -> ZodType.
Variable schemaZodFormatter : Schema -> ZodFormatterOptions -> ZodType.
Variable withAttributeNameDecoding :
  ItemSchema -> ZodFormatterOptions -> ZodType -> ZodType.

Lemma foldl_insert_entries (entries : list (string * ZodType)) (object : gmap string ZodType) :
  foldl (fun object entry => <[ entry.1 := entry.2 ]> object) object entries
  = list_to_map (reverse entries) ∪ object.
Proof.
  revert object. induction entries as [|[k v] entries IH]; intros object; simpl.
  - by rewrite (left_id ∅ (∪)).
  - rewrite IH, reverse_cons, list_to_map_app. simpl.
    rewrite <- (assoc (∪)). f_equal.
    by rewrite <- insert_union_l, (left_id ∅ (∪)).
Qed.

Lemma fromEntries_lookup (entries : list (string * ZodType)) k :
  NoDup entries.*1 ->
  (forall v, (k, v) ∈ entries -> fromEntries ZodType entries !! k = Some v)
  /\ (k ∉ entries.*1 -> fromEntries ZodType entries !! k = None).
Proof.
  intros Hnodup. unfold fromEntries.
  rewrite foldl_insert_entries.
  split.
  - intros v Hin. rewrite (right_id ∅ (∪)). apply elem_of_list_to_map.
    + by rewrite fmap_reverse, reverse_Permutation.
    + by apply elem_of_reverse.
  - intros Hnotin. rewrite (right_id ∅ (∪)). apply not_elem_of_list_to_map.
    rewrite fmap_reverse. by rewrite elem_of_reverse.
Qed.

Lemma filter_keys (p : string * Schema -> bool) (l : list (string * Schema)) k :
  k ∈ (List.filter p l).*1 -> k ∈ l.*1.
Proof.
  intros Hin. apply list_elem_of_fmap in Hin as (e & -> & Hin).
  apply list_elem_of_In, filter_In in Hin as [Hin _].
  apply list_elem_of_fmap. exists e. split; [done|]. by apply list_elem_of_In.
Qed.

Lemma filter_NoDup_keys (p : string * Schema -> bool) (l : list (string * Schema)) :
  NoDup l.*1 -> NoDup (List.filter p l).*1.
Proof.
  induction l as [|e l IH]; simpl; [done|].
  intros Hnodup. apply NoDup_cons in Hnodup as [Hnotin Hnodup].
  destruct (p e); simpl; [|by apply IH].
  apply NoDup_cons. split; [|by apply IH].
  intros Hin. by apply Hnotin, (filter_keys p).
Qed.

Lemma NoDup_keys_functional (l : list (string * Schema)) k a b :
  NoDup l.*1 -> (k, a) ∈ l -> (k, b) ∈ l -> a = b.
Proof.
  intros Hnodup Ha Hb.
  apply (elem_of_list_to_map (M := gmap string)) in Ha; [|done].
  apply (elem_of_list_to_map (M := gmap string)) in Hb; [|done].
  congruence.
Qed.

(** X11: the object the item formatter builds has one entry per displayed
    attribute and nothing else.  An attribute is displayed unless formatting
    is on (the default) and the attribute is hidden; its entry is its own
    formatter, called with the caller's options and [defined: false].  The
    decoding wrapper gets the schema and the caller's options as they
    came. *)
Theorem itemZodFormatter_shape (schema : ItemSchema) (options : ZodFormatterOptions) :
  NoDup (item_attributes schema).*1 ->
  exists shape,
    itemZodFormatter ZodType z_object schemaZodFormatter withAttributeNameDecoding
      schema options
    = withAttributeNameDecoding schema options (z_object shape)
    /\ (forall name attribute,
          (name, attribute) ∈ item_attributes schema ->
          shape !! name
          = if displayed options attribute
            then Some (schemaZodFormatter attribute
                         (<[ "defined" := VBool false ]> options))
            else None)
    /\ (forall name, name ∉ (item_attributes schema).*1 -> shape !! name = None).
Proof.
  intros Hnodup. eexists. split; [reflexivity|].
  set (format := fun entry : string * Schema =>
         (entry.1, schemaZodFormatter entry.2 (<[ "defined" := VBool false ]> options))).
  assert (Hkeys : forall l : list (string * Schema), (map format l).*1 = l.*1).
  { intros l. induction l as [|e l IH]; [done|]. simpl. f_equal. exact IH. }
  unfold displayed. destruct (formatOn options); simpl.
  - assert (Hfiltered : NoDup (map format (List.filter notHidden (item_attributes schema))).*1).
    { rewrite Hkeys. by apply filter_NoDup_keys. }
    split.
    + intros name attribute Hin.
      destruct (propTruthy (schemaProps attribute !! "hidden")) eqn:Hhidden; simpl.
      * apply (fromEntries_lookup _ name Hfiltered). rewrite Hkeys.
        intros Hname. apply list_elem_of_fmap in Hname as ([name' other] & Hname' & Hother).
        simpl in Hname'. subst name'.
        apply list_elem_of_In, filter_In in Hother as [Hother Hshown].
        apply list_elem_of_In in Hother.
        rewrite (NoDup_keys_functional _ _ _ _ Hnodup Hin Hother) in Hhidden.
        unfold notHidden in Hshown. simpl in Hshown. by rewrite Hhidden in Hshown.
      * apply (fromEntries_lookup _ name Hfiltered).
        apply list_elem_of_In, (in_map format _ (name, attribute)), filter_In.
        split; [by apply list_elem_of_In|].
        unfold notHidden. simpl. by rewrite Hhidden.
    + intros name Hname. apply (fromEntries_lookup _ name Hfiltered).
      rewrite Hkeys. intros Hin. by apply Hname, (filter_keys notHidden).
  - assert (Hall : NoDup (map format (item_attributes schema)).*1) by by rewrite Hkeys.
    split.
    + intros name attribute Hin.
      apply (fromEntries_lookup _ name Hall).
      by apply list_elem_of_In, (in_map format _ (name, attribute)), list_elem_of_In.
    + intros name Hname. apply (fromEntries_lookup _ name Hall). by rewrite Hkeys.
Qed.

(** X12: the [defined] option of the caller never reaches the attributes:
    whatever the caller sets it to, the attributes are formatted into the
    same object; only the decoding wrapper sees the caller's value. *)
Theorem itemZodFormatter_ignores_defined (schema : ItemSchema)
    (options : ZodFormatterOptions) :
  exists shape,
    itemZodFormatter ZodType z_object schemaZodFormatter withAttributeNameDecoding
      schema options
    = withAttributeNameDecoding schema options (z_object shape)
    /\ forall v,
         itemZodFormatter ZodType z_object schemaZodFormatter withAttributeNameDecoding
           schema (<[ "defined" := v ]> options)
         = withAttributeNameDecoding schema (<[ "defined" := v ]> options)
             (z_object shape).
Proof.
  eexists. split; [reflexivity|].
  intros v. unfold itemZodFormatter.
  assert (Hformat : formatOn (<[ "defined" := v ]> options) = formatOn options).
  { unfold formatOn. by rewrite lookup_insert_ne. }
  by rewrite Hformat, insert_insert_eq.
Qed.

End ItemZodFormatterFacts.

Lemma itemZodFormatter_shape_witness :
  NoDup (item_attributes secretItem).*1
  /\ exists shape,
       itemZodFormatter ZodModel ZObject ZAttribute (fun _ _ z => ZDecoding z)
         secretItem ∅
       = ZDecoding (ZObject shape)
       /\ (forall name attribute,
             (name, attribute) ∈ item_attributes secretItem ->
             shape !! name
             = if displayed ∅ attribute
               then Some (ZAttribute attribute (<[ "defined" := VBool false ]> ∅))
               else None)
       /\ (forall name, name ∉ (item_attributes secretItem).*1 -> shape !! name = None).
Proof.
  assert (Hnodup : NoDup (item_attributes secretItem).*1).
  { simpl. apply NoDup_cons. split.
    - rewrite elem_of_cons. intros [Heq|Hin]; [discriminate|by apply elem_of_nil in Hin].
    - apply NoDup_cons. split; [apply not_elem_of_nil|apply NoDup_nil_2]. }
  split; [exact Hnodup|].
  exact (itemZodFormatter_shape ZodModel ZObject ZAttribute (fun _ _ z => ZDecoding z)
           secretItem ∅ Hnodup).
Defined.

(** The formatter run on an item with a hidden attribute: with formatting
    on, the hidden [secret] is left out; with [format: false] it is kept. *)
Example itemZodFormatter_secretItem :
  itemZodFormatter ZodModel ZObject ZAttribute (fun _ _ z => ZDecoding z) secretItem ∅
  = ZDecoding
      (ZObject {[ "name" := ZAttribute stringSchema {[ "defined" := VBool false ]} ]})
  /\ itemZodFormatter ZodModel ZObject ZAttribute (fun _ _ z => ZDecoding z) secretItem
       {[ "format" := VBool false ]}
     = ZDecoding
         (ZObject
            {[ "name" :=
                 ZAttribute stringSchema
                   {[ "defined" := VBool false; "format" := VBool false ]};
               "secret" :=
                 ZAttribute (SScalar TString {[ "hidden" := PV (VBool true) ]})
                   {[ "defined" := VBool false; "format" := VBool false ]} ]}).
Proof. split; vm_compute; reflexivity. Qed.
